(** * Actualisation dashboard: the data pipeline of [actualisation.py]

    A shallow embedding of the login gate, the two loaders, the cascading
    attribute filter, the two spatial selections and the two aggregation
    blocks of the Streamlit script, with the properties its specification
    states about them.

    pandas, geopandas and shapely are libraries the script calls; their
    operations are embedded next to the script's own code, each with the
    library behaviour it stands for written in its comment. *)

From Stdlib Require Import List String Ascii Bool ZArith QArith Lia.
From Stdlib Require Import Sorted OrdersEx.
From stdpp Require Import base option gmap strings.
Import ListNotations.
Local Open Scope string_scope.
Local Open Scope list_scope.

(** ** Python exceptions and fallible computations *)

Inductive exn : Type :=
| KeyError
| ValueError
| TypeError
| AttributeError
| OverflowError.

Inductive result (A : Type) : Type :=
| Ok (a : A)
| Raise (e : exn).
Arguments Ok {A} a.
Arguments Raise {A} e.

#[global] Instance result_ret : MRet result := fun A a => Ok a.
#[global] Instance result_bind : MBind result := fun A B k c =>
  match c with
  | Ok a => k a
  | Raise e => Raise e
  end.

Definition succeeds {A} (c : result A) : Prop := exists a, c = Ok a.

(** ** Numbers and cells

    A binary64 value is a finite number, one of the two infinities or NaN.
    Finite values are kept as exact rationals: rounding is not modelled. *)

Inductive f64 : Type :=
| Fin (q : Q)
| PInf
| NInf
| NaN.

Definition isnan (x : f64) : bool :=
  match x with NaN => true | _ => false end.

Definition isfinite (x : f64) : bool :=
  match x with Fin _ => true | _ => false end.

Definition fzero : f64 := Fin 0.

(** IEEE addition on the four kinds of value.  Finite values add
    exactly: this is what binary64 addition, and the sum of an int64
    column, give on integers as long as the sums stay below 2^53 in
    magnitude; rounding and wrap-around beyond that are not modelled. *)
Definition fadd (x y : f64) : f64 :=
  match x, y with
  | NaN, _ | _, NaN => NaN
  | PInf, NInf | NInf, PInf => NaN
  | PInf, _ | _, PInf => PInf
  | NInf, _ | _, NInf => NInf
  | Fin a, Fin b => Fin (a + b)
  end.

(** Python's [==] on floats: NaN equals nothing, itself included. *)
Definition feqb (x y : f64) : bool :=
  match x, y with
  | Fin a, Fin b => Qeq_bool a b
  | PInf, PInf | NInf, NInf => true
  | _, _ => false
  end.

(** Python's [<] on floats: false as soon as one side is NaN. *)
Definition fltb (x y : f64) : bool :=
  match x, y with
  | NaN, _ | _, NaN => false
  | _, NInf => false
  | NInf, _ => true
  | PInf, _ => false
  | _, PInf => true
  | Fin a, Fin b => negb (Qle_bool b a)
  end.

(** A cell of a DataFrame as [read_csv] and [read_file] leave it: a number
    (a missing value is the number NaN) or a piece of text. *)
Inductive cell : Type :=
| Num (x : f64)
| Text (s : string).

Definition is_text (c : cell) : bool :=
  match c with Text _ => true | Num _ => false end.

Definition is_num (c : cell) : bool :=
  match c with Num _ => true | Text _ => false end.

(** [pd.isna] on a cell. *)
Definition isna (c : cell) : bool :=
  match c with Num x => isnan x | Text _ => false end.

(** Python's [==] between two cell values; a number never equals a text. *)
Definition cell_eqb (a b : cell) : bool :=
  match a, b with
  | Num x, Num y => feqb x y
  | Text s, Text t => String.eqb s t
  | _, _ => false
  end.

(** ** Tables

    A row carries its index label, its attribute cells in column order and
    its geometry ([unit] for a plain DataFrame).  [columns] lists the
    attribute columns; the geometry column is the [geometry] field. *)

Record row (G : Type) : Type := mkRow {
  label : nat;
  cells : list cell;
  geometry : G
}.
Arguments mkRow {G} label cells geometry.
Arguments label {G} r.
Arguments cells {G} r.
Arguments geometry {G} r.

Record frame (G : Type) : Type := mkFrame {
  columns : list string;
  rows : list (row G)
}.
Arguments mkFrame {G} columns rows.
Arguments columns {G} f.
Arguments rows {G} f.

(** A table as [read_csv], [read_file] and the join build them: column
    names pairwise distinct, every row as wide as the header. *)
Definition well_formed {G} (df : frame G) : Prop :=
  NoDup (columns df) /\
  Forall (fun r => length (cells r) = length (columns df)) (rows df).

(** [df.empty] for a table that has at least one column. *)
Definition empty {G} (df : frame G) : bool :=
  match rows df with [] => true | _ :: _ => false end.

(** Position of a column name in the header. *)
Fixpoint position (name : string) (cols : list string) : option nat :=
  match cols with
  | [] => None
  | c :: cols' =>
      if String.eqb c name then Some 0%nat
      else match position name cols' with
           | Some i => Some (S i)
           | None => None
           end
  end.

(** [df[name]] needs the column: KeyError otherwise. *)
Definition column_index (name : string) (cols : list string) : result nat :=
  match position name cols with
  | Some i => Ok i
  | None => Raise KeyError
  end.

Definition cell_at {G} (i : nat) (r : row G) : cell :=
  nth i (cells r) (Num NaN).

(** [df[name]]: the cells of one column, top to bottom.  The column is
    looked up by its first position: under a header that has the name
    twice pandas hands back a DataFrame instead, which is not modelled. *)
Definition getitem {G} (df : frame G) (name : string) : result (list cell) :=
  i ← column_index name (columns df);
  Ok (map (cell_at i) (rows df)).

(** [df.get(name)]: [None] instead of KeyError. *)
Definition get {G} (df : frame G) (name : string) : option (list cell) :=
  match position name (columns df) with
  | Some i => Some (map (cell_at i) (rows df))
  | None => None
  end.

Fixpoint replace_nth {A} (i : nat) (f : A -> A) (l : list A) : list A :=
  match l, i with
  | [], _ => []
  | x :: l', O => f x :: l'
  | x :: l', S j => x :: replace_nth j f l'
  end.

Definition map_cell {G} (i : nat) (f : cell -> cell) (r : row G) : row G :=
  mkRow (label r) (replace_nth i f (cells r)) (geometry r).

(** ** Geometry

    A shapely [Point(x, y)], and where a point lies with respect to another
    geometry: in its interior, on its boundary or outside. *)

Record point : Type := mkPoint { px : f64; py : f64 }.

Inductive location : Type :=
| Interior
| Boundary
| Exterior.

(** The rectangle the draw tool produces, as one concrete geometry. *)
Record box : Type := mkBox { xmin : Q; xmax : Q; ymin : Q; ymax : Q }.

Definition between (lo hi v : Q) : location :=
  if Qle_bool v lo then (if Qeq_bool v lo then Boundary else Exterior)
  else if Qle_bool hi v then (if Qeq_bool v hi then Boundary else Exterior)
  else Interior.

Definition locate_box (p : point) (b : box) : location :=
  match px p, py p with
  | Fin x, Fin y =>
      match between (xmin b) (xmax b) x, between (ymin b) (ymax b) y with
      | Exterior, _ | _, Exterior => Exterior
      | Interior, Interior => Interior
      | _, _ => Boundary
      end
  | _, _ => Exterior
  end.

(** A reader of integer literals and of the word inf, one concrete reading
    of text cells. *)
Definition digit_of (a : ascii) : option Z :=
  let n := Z.of_nat (nat_of_ascii a) in
  if ((48 <=? n) && (n <=? 57))%Z then Some (n - 48)%Z else None.

Fixpoint read_digits (acc : Z) (s : string) : option Z :=
  match s with
  | EmptyString => Some acc
  | String a s' =>
      match digit_of a with
      | Some d => read_digits (10 * acc + d)%Z s'
      | None => None
      end
  end.

Definition read_plain (s : string) : f64 :=
  if String.eqb s "inf" then PInf
  else if String.eqb s "-inf" then NInf
  else match s with
       | EmptyString => NaN
       | String "-" s' =>
           match s' with
           | EmptyString => NaN
           | _ => match read_digits 0 s' with
                  | Some z => Fin (inject_Z (- z))
                  | None => NaN
                  end
           end
       | _ => match read_digits 0 s with
              | Some z => Fin (inject_Z z)
              | None => NaN
              end
       end.

(** A reader of integer literals for [int] on a str. *)
Definition read_int (s : string) : option Z :=
  match s with
  | EmptyString => None
  | String "-" EmptyString => None
  | String "-" s' => option_map Z.opp (read_digits 0 s')
  | _ => read_digits 0 s
  end.

(** ASCII readings of [str.lower] and [str.strip], and validity of a
    rectangle, to run the SE loader on. *)
Definition ascii_lower (a : ascii) : ascii :=
  let n := nat_of_ascii a in
  if ((65 <=? n) && (n <=? 90))%nat then ascii_of_nat (n + 32) else a.

Fixpoint lower_ascii (s : string) : string :=
  match s with
  | EmptyString => EmptyString
  | String a s' => String (ascii_lower a) (lower_ascii s')
  end.

Definition is_space (a : ascii) : bool :=
  let n := nat_of_ascii a in
  ((n =? 32) || ((9 <=? n) && (n <=? 13)))%nat.

Fixpoint lstrip (l : list ascii) : list ascii :=
  match l with
  | a :: l' => if is_space a then lstrip l' else l
  | [] => []
  end.

Definition strip_ascii (s : string) : string :=
  string_of_list_ascii
    (rev (lstrip (rev (lstrip (list_ascii_of_string s))))).

Definition box_is_valid (b : box) : bool :=
  Qle_bool (xmin b) (xmax b) && Qle_bool (ymin b) (ymax b).

Definition box_is_empty (b : box) : bool := false.

(** ** Sample tables

    Small tables to run the pipeline on: a CSV as [read_csv] returns it,
    loaded points around the unit square, an SE table that came out of an
    earlier join, and a few degenerate ones. *)

Module Sample.

Definition num (n : Z) : cell := Num (Fin (inject_Z n)).
Definition half : Q := 1 # 2.

(** LAT,LON with lines [inf,0], [,1] and [2,3]. *)
Definition csv : frame unit :=
  mkFrame ["LAT"; "LON"]
    [ mkRow 0 [Num PInf; num 0] tt;
      mkRow 1 [Num NaN; num 1] tt;
      mkRow 2 [num 2; num 3] tt ].

Definition unit_square : box := mkBox 0 1 0 1.
Definition far_square : box := mkBox 2 4 2 4.

(** Three loaded points: inside the unit square, on its right edge, and
    inside the far square; (M=5,F=3), (M=0,F=2), (M=7,F=7). *)
Definition inside : row point :=
  mkRow 0 [Num (Fin half); Num (Fin half); num 5; num 3]
    (mkPoint (Fin half) (Fin half)).
Definition on_edge : row point :=
  mkRow 1 [Num (Fin half); num 1; num 0; num 2]
    (mkPoint (Fin 1) (Fin half)).
Definition far : row point :=
  mkRow 2 [num 3; num 3; num 7; num 7] (mkPoint (Fin 3) (Fin 3)).

Definition points : frame point :=
  mkFrame ["LAT"; "LON"; "Masculin"; "Feminin"] [inside; on_edge; far].


(** Points whose CSV had no Masculin column. *)
Definition points_without_masculin : frame point :=
  mkFrame ["LAT"; "LON"; "Feminin"]
    [ mkRow 0 [Num (Fin half); Num (Fin half); num 3]
        (mkPoint (Fin half) (Fin half)) ].

(** Points whose Masculin column holds the texts 5 and ?, and whose
    Feminin column holds the texts 3 and x. *)
Definition points_with_text : frame point :=
  mkFrame ["LAT"; "LON"; "Masculin"; "Feminin"]
    [ mkRow 0 [Num (Fin half); Num (Fin half); Text "5"; Text "3"]
        (mkPoint (Fin half) (Fin half));
      mkRow 1 [Num (Fin half); num 1; Text "?"; Text "x"]
        (mkPoint (Fin 1) (Fin half)) ].

(** Points whose CSV had a column named index_right. *)
Definition points_reserved : frame point :=
  mkFrame ["LAT"; "LON"; "index_right"]
    [ mkRow 0 [Num (Fin half); Num (Fin half); num 9]
        (mkPoint (Fin half) (Fin half)) ].

Definition se_columns : list string :=
  ["region"; "cercle"; "commune"; "idse_new"; "pop_se"; "pop_se_ct";
   "index_right"].

Definition zone_1 : row box :=
  mkRow 0 [Text "Kayes"; Text "Kita"; Text "Kita"; Text "Z1"; num 100; num 80;
           num 4] unit_square.
Definition zone_2 : row box :=
  mkRow 1 [Text "Kayes"; Text "Kita"; Text "Kita"; Text "Z2"; num 60; num 50;
           num 6] far_square.

(** Two zones of one commune, with the index column of an earlier join. *)
Definition se : frame box := mkFrame se_columns [zone_2; zone_1].

(** The subset of the zone Z1, and a subset without rows. *)
Definition se_z1 : frame box := mkFrame se_columns [zone_1].
Definition se_empty : frame box := mkFrame se_columns [].

(** An SE table as [read_file] returns it: upper-case and padded names,
    no idse_new and no pop_se_ct column, and a second row whose rectangle
    is not valid. *)
Definition bad_square : box := mkBox 1 0 0 1.

Definition raw_se : frame box :=
  mkFrame ["LREGION"; " lcercle "; "Commune"; "POP_SE"]
    [ mkRow 0 [Text "Kayes"; Text "Kita"; Text "Kita"; num 100] unit_square;
      mkRow 1 [Text "Kayes"; Text "Kita"; Text "Kita"; num 60] bad_square ].

(** A region column with a missing value next to a name. *)
Definition se_null_region : frame box :=
  mkFrame ["region"; "idse_new"]
    [ mkRow 0 [Text "Kayes"; Text "Z1"] unit_square;
      mkRow 1 [Num NaN; Text "Z2"] far_square ].

(** Two zones that both contain the edge point's position. *)
Definition right_square : box := mkBox 1 2 0 1.

Definition se_neighbours : frame box :=
  mkFrame ["idse_new"]
    [ mkRow 0 [Text "Z1"] unit_square; mkRow 1 [Text "Z1"] right_square ].

(** A CSV with a Masculin column read as text: lines [1,2,5], [,3,7]
    and [4,5,?]. *)
Definition csv_text : frame unit :=
  mkFrame ["LAT"; "LON"; "Masculin"]
    [ mkRow 0 [num 1; num 2; Text "5"] tt;
      mkRow 1 [Num NaN; num 3; Text "7"] tt;
      mkRow 2 [num 4; num 5; Text "?"] tt ].

(** A CSV without a LON column. *)
Definition csv_no_lon : frame unit :=
  mkFrame ["LAT"; "Masculin"] [ mkRow 0 [num 1; num 5] tt ].

(** A file with the properties index_a and INDEX_A. *)
Definition raw_index : frame box :=
  mkFrame ["index_a"; "INDEX_A"] [ mkRow 0 [num 1; num 2] unit_square ].

(** The far point alone: no point for the zone Z1. *)
Definition far_only : frame point :=
  mkFrame ["LAT"; "LON"; "Masculin"; "Feminin"] [far].

End Sample.

(** ** USERS AND ROLES, SESSION STATE, LOGIN *)

Record user : Type := mkUser { password : string; role : string }.

Definition USERS : gmap string user :=
  <["admin" := mkUser "admin2025" "Admin"]>
    (<["customer" := mkUser "cust2025" "Customer"]> ∅).

(** What a key of [st.session_state] holds. *)
Inductive value : Type :=
| VNone
| VBool (b : bool)
| VStr (s : string)
| VPoints (g : frame point).

(** SESSION STATE INIT: the four keys are set when [auth_ok] is not there. *)
Definition session_init (st : gmap string value) : gmap string value :=
  match st !! "auth_ok" with
  | Some _ => st
  | None =>
      <["points_gdf" := VNone]>
        (<["user_role" := VNone]>
           (<["username" := VNone]>
              (<["auth_ok" := VBool false]> st)))
  end.

(** How a run of the script leaves the login section. *)
Inductive gate : Type :=
| Passed
| Rerun
| Stopped (incorrect_password : bool).

(** Truth value of what [auth_ok] holds. *)
Definition truthy (v : value) : result bool :=
  match v with
  | VNone => Ok false
  | VBool b => Ok b
  | VStr s => Ok (negb (String.eqb s ""))
  | VPoints _ => Raise ValueError
  end.

(** The LOGIN section of one run: [username] is the selected box entry,
    [typed] the text of the password field, [clicked] whether the button
    was pressed.  It gives the session state after the section and how the
    run goes on. *)
Definition login (st : gmap string value) (username typed : string)
    (clicked : bool) : result (gmap string value * gate) :=
  match st !! "auth_ok" with
  | None => Raise AttributeError
  | Some v =>
      ok ← truthy v;
      if ok : bool then Ok (st, Passed)
      else if clicked then
        match USERS !! username with
        | None => Raise KeyError
        | Some u =>
            if String.eqb typed (password u) then
              Ok (<["user_role" := VStr (role u)]>
                    (<["username" := VStr username]>
                       (<["auth_ok" := VBool true]> st)),
                  Rerun)
            else Ok (st, Stopped true)
        end
      else Ok (st, Stopped false)
  end.

(** LOGOUT: the keys are deleted one after the other; the script then
    reruns, starting with SESSION STATE INIT. *)
Definition logout (st : gmap string value) : gmap string value :=
  fold_left (fun m k => delete k m) (map fst (map_to_list st)) st.

(** ** LOAD CONCESSION POINTS *)

Section Pipeline.

Set Default Proof Using "Type".

(** The number [pd.to_numeric] reads in a text under [errors="coerce"]:
    NaN when the text is no number. *)
Variable str_to_float : string -> f64.

Definition to_numeric_coerce (c : cell) : f64 :=
  match c with
  | Num x => x
  | Text s => str_to_float s
  end.

(** [df[name] = pd.to_numeric(df[name], errors="coerce")] *)
Definition coerce_column {G} (name : string) (df : frame G) : result (frame G) :=
  i ← column_index name (columns df);
  Ok (mkFrame (columns df)
        (map (map_cell i (fun c => Num (to_numeric_coerce c))) (rows df))).

(** [df.dropna(subset=names)]: a row goes when one of the named cells is
    missing; the surviving rows keep their labels and their order. *)
Definition dropna {G} (names : list string) (df : frame G) : result (frame G) :=
  idx ← mapM (fun n => column_index n (columns df)) names;
  Ok (mkFrame (columns df)
        (List.filter (fun r => forallb (fun i => negb (isna (cell_at i r))) idx)
           (rows df))).

Definition as_float (c : cell) : f64 :=
  match c with Num x => x | Text _ => NaN end.

(** [gpd.GeoDataFrame(df, geometry=gpd.points_from_xy(df[x], df[y]))].
    The points become the geometry of the rows.  A CSV column that is
    itself named geometry is overwritten by them in the script; here it
    stays among the attribute columns as read. *)
Definition with_points (x y : string) (df : frame unit) : result (frame point) :=
  ix ← column_index x (columns df);
  iy ← column_index y (columns df);
  Ok (mkFrame (columns df)
        (map (fun r => mkRow (label r) (cells r)
                         (mkPoint (as_float (cell_at ix r)) (as_float (cell_at iy r))))
           (rows df))).

(** [load_points], from the table [pd.read_csv(url)] returned. *)
Definition load_points (df : frame unit) : result (frame point) :=
  df ← coerce_column "LAT" df;
  df ← coerce_column "LON" df;
  df ← dropna ["LAT"; "LON"] df;
  with_points "LON" "LAT" df.

(** ** SAFE SPATIAL JOIN *)

(** The geometries of the SE table and of the draw tool, and the point
    locator of the geometry engine behind shapely's predicates. *)
Variable geom : Type.
Variable locate : point -> geom -> location.

(** [a.intersects(b)] for a point [a]: the two share some point. *)
Definition intersects (p : point) (g : geom) : bool :=
  match locate p g with
  | Exterior => false
  | _ => true
  end.

(** [a.within(b)] for a point [a]: it lies in the interior of [b]. *)
Definition within (p : point) (g : geom) : bool :=
  match locate p g with
  | Interior => true
  | _ => false
  end.

Fixpoint keep_where {A} (mask : list bool) (l : list A) : list A :=
  match mask, l with
  | b :: mask', x :: l' =>
      if b then x :: keep_where mask' l' else keep_where mask' l'
  | _, _ => []
  end.

(** [df.drop(columns=[name])]: every column of that name goes, from the
    header and from each row; KeyError when the header has none. *)
Definition drop {G} (name : string) (df : frame G) : result (frame G) :=
  if existsb (String.eqb name) (columns df) then
    let mask := map (fun c => negb (String.eqb name c)) (columns df) in
    Ok (mkFrame (keep_where mask (columns df))
          (map (fun r => mkRow (label r) (keep_where mask (cells r)) (geometry r))
             (rows df)))
  else Raise KeyError.

Definition startswith (pre s : string) : bool := String.prefix pre s.

(** The loop of [safe_sjoin]: it walks the header the copy had on entry
    and drops, in place, each name that starts with [index_]. *)
Definition strip_index_columns {G} (polygons : frame G) : result (frame G) :=
  fold_left
    (fun acc col =>
       p ← acc;
       if startswith "index_" col then drop col p else Ok p)
    (columns polygons) (Ok polygons).

(** Names [gpd.sjoin] keeps for the index columns it adds: it raises
    ValueError when either table already has one of them. *)
Definition reserved : list string := ["index_left"; "index_right"].

Definition is_reserved (c : string) : bool := existsb (String.eqb c) reserved.

Definition mem_string (c : string) (l : list string) : bool :=
  existsb (String.eqb c) l.

(** A name present on both sides gets the side's suffix. *)
Definition suffixed (suffix : string) (other : list string) (c : string) : string :=
  if mem_string c other then c ++ suffix else c.

Definition index_cell (n : nat) : cell := Num (Fin (inject_Z (Z.of_nat n))).

(** One joined row: the point's row, then the label of the matched
    polygon, then the polygon's attributes. *)
Definition join_row (pq : row point * row geom) : row point :=
  mkRow (label (fst pq))
        (cells (fst pq) ++ index_cell (label (snd pq)) :: cells (snd pq))
        (geometry (fst pq)).

(** The pairs the predicate query finds, by point then by polygon. *)
Definition intersecting_pairs (points : frame point) (polygons : frame geom)
  : list (row point * row geom) :=
  flat_map
    (fun p => map (fun q => (p, q))
                (List.filter (fun q => intersects (geometry p) (geometry q))
                   (rows polygons)))
    (rows points).

(** [gpd.sjoin(points, polygons, predicate="intersects", how="inner")]:
    refused with ValueError, before any row is looked at, when a table has
    a column under a reserved name; otherwise one row per intersecting
    pair, under the point's label, with the point's columns, the column
    index_right and the polygon's attribute columns. *)
Definition sjoin (points : frame point) (polygons : frame geom)
  : result (frame point) :=
  if existsb is_reserved (columns points ++ columns polygons)
  then Raise ValueError
  else
    Ok (mkFrame
          (map (suffixed "_left" (columns polygons)) (columns points)
             ++ "index_right"
             :: map (suffixed "_right" (columns points)) (columns polygons))
          (map join_row (intersecting_pairs points polygons))).

Definition safe_sjoin (points : frame point) (polygons : frame geom)
  : result (frame point) :=
  polygons ← strip_index_columns polygons;
  sjoin points polygons.

(** ** SIDEBAR: the attribute query *)

(** [df[df[name] == v]] *)
Definition select_eq {G} (name : string) (v : cell) (df : frame G)
  : result (frame G) :=
  i ← column_index name (columns df);
  Ok (mkFrame (columns df)
        (List.filter (fun r => cell_eqb (cell_at i r) v) (rows df))).

(** Two cells hold the same value for [unique]: all NaN count as one. *)
Definition same_value (a b : cell) : bool :=
  cell_eqb a b || (isna a && isna b).

(** [Series.unique()]: the distinct values in order of first appearance. *)
Fixpoint unique (l : list cell) : list cell :=
  match l with
  | [] => []
  | x :: l' => x :: List.filter (fun y => negb (same_value x y)) (unique l')
  end.

Definition string_ltb (s t : string) : bool :=
  match String_as_OT.compare s t with Lt => true | _ => false end.

(** Python's [<]: by code point on str, numeric on floats, TypeError
    between a str and a float. *)
Definition py_lt (a b : cell) : result bool :=
  match a, b with
  | Text s, Text t => Ok (string_ltb s t)
  | Num x, Num y => Ok (fltb x y)
  | _, _ => Raise TypeError
  end.

(** [sorted]: stable, built on [<] alone.  On values that [<] orders
    totally every stable sort returns this list. *)
Fixpoint insert_sorted (x : cell) (l : list cell) : result (list cell) :=
  match l with
  | [] => Ok [x]
  | y :: l' =>
      b ← py_lt y x;
      if b : bool then (r ← insert_sorted x l'; Ok (y :: r))
      else Ok (x :: y :: l')
  end.

Fixpoint sorted (l : list cell) : result (list cell) :=
  match l with
  | [] => Ok []
  | x :: l' => s ← sorted l'; insert_sorted x s
  end.

(** [sorted(df[name].unique())], the options of the first three boxes. *)
Definition options {G} (name : string) (df : frame G) : result (list cell) :=
  col ← getitem df name;
  sorted (unique col).

Definition no_filter : cell := Text "No filter".

(** [idse_list = ["No filter"] + sorted(gdf_commune["idse_new"].unique())] *)
Definition idse_list {G} (gdf_commune : frame G) : result (list cell) :=
  opts ← options "idse_new" gdf_commune;
  Ok (no_filter :: opts).

(** [gdf_idse] *)
Definition gdf_idse {G} (gdf_commune : frame G) (idse_selected : cell)
  : result (frame G) :=
  if cell_eqb idse_selected no_filter then Ok gdf_commune
  else select_eq "idse_new" idse_selected gdf_commune.

(** The three boxes above it: region, then cercle, then commune. *)
Definition gdf_commune {G} (gdf : frame G) (region cercle commune : cell)
  : result (frame G) :=
  gdf_r ← select_eq "region" region gdf;
  gdf_c ← select_eq "cercle" cercle gdf_r;
  select_eq "commune" commune gdf_c.

(** ** Aggregation *)

(** Python's [+] on two scalars: float addition, str concatenation,
    TypeError across the two. *)
Definition py_add (a b : cell) : result cell :=
  match a, b with
  | Num x, Num y => Ok (Num (fadd x y))
  | Text s, Text t => Ok (Text (s ++ t))
  | _, _ => Raise TypeError
  end.

Definition fill (v : f64) (c : cell) : cell :=
  if isna c then Num v else c.

(** [Series.sum()]: missing values count as zero, then the values are
    added from the first one on; zero for an empty series. *)
Definition series_sum (s : list cell) : result cell :=
  match map (fill fzero) s with
  | [] => Ok (Num fzero)
  | c :: rest => fold_left (fun acc x => a ← acc; py_add a x) rest (Ok c)
  end.

(** What [pd.to_numeric] hands back: a Series for a Series, a scalar for
    a scalar. *)
Inductive numeric : Type :=
| Series (s : list cell)
| Scalar (x : f64).

(** [pd.to_numeric(arg, errors="coerce")], where [arg] comes from
    [df.get(name)]: [None] is a scalar and is read as NaN. *)
Definition to_numeric (arg : option (list cell)) : numeric :=
  match arg with
  | Some s => Series (map (fun c => Num (to_numeric_coerce c)) s)
  | None => Scalar NaN
  end.

(** [.fillna(v)] is a Series method; a float scalar has no such
    attribute. *)
Definition fillna (v : f64) (n : numeric) : result (list cell) :=
  match n with
  | Series s => Ok (map (fill v) s)
  | Scalar _ => Raise AttributeError
  end.

(** [int(s)] on a str, where it is an integer literal. *)
Variable str_to_int : string -> option Z.

(** [int(x)]: a finite float is cut towards zero, NaN is a ValueError,
    an infinity an OverflowError; a str is read or is a ValueError. *)
Definition py_int (c : cell) : result Z :=
  match c with
  | Num (Fin q) => Ok (Z.quot (Qnum q) (Zpos (Qden q)))
  | Num NaN => Raise ValueError
  | Num _ => Raise OverflowError
  | Text s =>
      match str_to_int s with
      | Some z => Ok z
      | None => Raise ValueError
      end
  end.

(** The three figures of a statistics block, as its markdown text shows
    them: [int(m)], [int(f)] and [int(m + f)], evaluated in that order. *)
Record totals : Type := mkTotals {
  masculin : Z;
  feminin : Z;
  total : Z
}.

Definition zero_totals : totals := mkTotals 0 0 0.

Definition markdown_totals (m f : cell) : result totals :=
  a ← py_int m;
  b ← py_int f;
  t ← py_add m f;
  c ← py_int t;
  Ok (mkTotals a b c).

(** A wedge size [ax.pie] accepts, and one that is more than zero. *)
Definition wedge_ok (c : cell) : bool :=
  match c with
  | Num (Fin q) => Qle_bool 0 q
  | _ => false
  end.

Definition wedge_positive (c : cell) : bool :=
  match c with
  | Num (Fin q) => negb (Qle_bool q 0)
  | _ => false
  end.

(** [ax.pie(x, ...)]: ValueError for a size that is no number or is
    negative, and for sizes that add up to zero or to no finite number,
    the fractions then being NaN; a chart otherwise. *)
Definition pie (x : list cell) : result unit :=
  if forallb wedge_ok x && existsb wedge_positive x then Ok tt
  else Raise ValueError.

(** What the polygon block shows. *)
Inductive polygon_panel : Type :=
| NoPanel
| NoPoints
| PolygonTotals (t : totals).

(** [pd.to_numeric(pts_poly.get(name), errors="coerce").fillna(0).sum()] *)
Definition coerced_sum (pts_poly : frame point) (name : string) : result cell :=
  s ← fillna fzero (to_numeric (get pts_poly name));
  series_sum s.

(** The body under [pts_poly = ...]: the info line for an empty
    selection; otherwise the two sums, the three figures of the markdown
    text and the pie chart of the two sums. *)
Definition polygon_statistics (pts_poly : frame point) : result polygon_panel :=
  if empty pts_poly then Ok NoPoints
  else
    m_poly ← coerced_sum pts_poly "Masculin";
    f_poly ← coerced_sum pts_poly "Feminin";
    t ← markdown_totals m_poly f_poly;
    _ ← pie [m_poly; f_poly];
    Ok (PolygonTotals t).

(** [points_gdf[points_gdf.geometry.within(poly)]] *)
Definition pts_poly (points_gdf : frame point) (poly : geom) : frame point :=
  mkFrame (columns points_gdf)
    (List.filter (fun r => within (geometry r) poly) (rows points_gdf)).

(** A drawn GeoJSON feature: its ["geometry"] entry, when it has one,
    as [shape] builds it. *)
Record feature : Type := mkFeature { feature_geometry : option geom }.

(** [l[-1]] on the non-empty list [d :: ds]. *)
Fixpoint last_feature (d : feature) (ds : list feature) : feature :=
  match ds with
  | [] => d
  | d' :: ds' => last_feature d' ds'
  end.

(** The polygon block of the map column; [all_drawings] is
    [map_data.get("all_drawings")], the empty list when nothing is
    there. *)
Definition polygon_block (points_gdf : frame point) (all_drawings : list feature)
  : result polygon_panel :=
  match all_drawings with
  | [] => Ok NoPanel
  | d :: ds =>
      match feature_geometry (last_feature d ds) with
      | None => Ok NoPanel
      | Some poly => polygon_statistics (pts_poly points_gdf poly)
      end
  end.

(** [pts_se.get(name, pd.Series()).sum()] *)
Definition plain_sum (pts_se : frame point) (name : string) : result cell :=
  series_sum (default [] (get pts_se name)).

(** The two sums of the SE block and the three figures its markdown text
    shows, from the joined points. *)
Definition se_figures (pts_se : frame point) : result totals :=
  m_total ← plain_sum pts_se "Masculin";
  f_total ← plain_sum pts_se "Feminin";
  markdown_totals m_total f_total.

(** The SE block from the joined points on: the two sums, the figures
    and, with no test for an empty join before it, the pie chart of the
    two sums. *)
Definition se_totals (pts_se : frame point) : result totals :=
  m_total ← plain_sum pts_se "Masculin";
  f_total ← plain_sum pts_se "Feminin";
  t ← markdown_totals m_total f_total;
  _ ← pie [m_total; f_total];
  Ok t.

(** The sex panel of the chart column, shown when an SE is selected:
    the join, then the block above. *)
Definition se_block (points_gdf : frame point) (gdf_idse : frame geom)
  : result totals :=
  pts_se ← safe_sjoin points_gdf gdf_idse;
  se_totals pts_se.

(** What the chart column shows under the population chart. *)
Inductive chart_panel : Type :=
| SelectSE
| SexTotals (t : totals).

(** The chart column: the "Select SE." line under "No filter", the sex
    panel otherwise. *)
Definition chart_column (points_gdf : frame point) (gdf_idse : frame geom)
    (idse_selected : cell) : result chart_panel :=
  if cell_eqb idse_selected no_filter then Ok SelectSE
  else
    t ← se_block points_gdf gdf_idse;
    Ok (SexTotals t).

(** ** LOAD SE POLYGONS *)

(** [str.lower] and [str.strip] on a column name, the reprojection of a
    geometry to EPSG:4326, and the validity and emptiness tests of the
    geometry engine. *)
Variable str_lower : string -> string.
Variable str_strip : string -> string.
Variable to_crs : geom -> geom.
Variable is_valid : geom -> bool.
Variable is_empty : geom -> bool.

(** The mapping of [gdf.rename(columns={...})]. *)
Definition renamed (c : string) : string :=
  if String.eqb c "lregion" then "region"
  else if String.eqb c "lcercle" then "cercle"
  else if String.eqb c "lcommune" then "commune"
  else c.

(** [if col not in gdf.columns: gdf[col] = v]: a new last column that
    holds [v] in every row. *)
Definition setdefault_column {G} (v : cell) (gdf : frame G) (col : string)
  : frame G :=
  if mem_string col (columns gdf) then gdf
  else mkFrame (columns gdf ++ [col])
         (map (fun r => mkRow (label r) (cells r ++ [v]) (geometry r))
            (rows gdf)).

(** [load_se_data], from the table [gpd.read_file(url)] returned. *)
Definition load_se_data (gdf : frame geom) : frame geom :=
  let gdf := mkFrame (columns gdf)
               (map (fun r => mkRow (label r) (cells r) (to_crs (geometry r)))
                  (rows gdf)) in
  let gdf := mkFrame (map (fun c => str_strip (str_lower c)) (columns gdf))
               (rows gdf) in
  let gdf := mkFrame (map renamed (columns gdf)) (rows gdf) in
  let gdf := fold_left (setdefault_column (Text ""))
               ["region"; "cercle"; "commune"; "idse_new"] gdf in
  let gdf := fold_left (setdefault_column (Num fzero))
               ["pop_se"; "pop_se_ct"] gdf in
  mkFrame (columns gdf)
    (List.filter (fun r => is_valid (geometry r) && negb (is_empty (geometry r)))
       (rows gdf)).

(** ** The population chart's table *)

(** [df[names]] read as a plain DataFrame: KeyError on a missing name. *)
Definition select_columns {G} (names : list string) (df : frame G)
  : result (frame unit) :=
  idx ← mapM (fun n => column_index n (columns df)) names;
  Ok (mkFrame names
        (map (fun r => mkRow (label r) (map (fun i => cell_at i r) idx) tt)
           (rows df))).

(** Rows under a fresh RangeIndex starting at [start]. *)
Fixpoint range_index (start : nat) (l : list (list cell)) : list (row unit) :=
  match l with
  | [] => []
  | c :: l' => mkRow start c tt :: range_index (S start) l'
  end.

(** [df.melt(id_vars=id_var, var_name=..., value_name=...)]: for every
    other column in header order, one row per row of [df] with the id, the
    column's name and the column's value. *)
Definition melt (id_var var_name value_name : string) (df : frame unit)
  : result (frame unit) :=
  i ← column_index id_var (columns df);
  let value_vars :=
    List.filter (fun c => negb (String.eqb c id_var)) (columns df) in
  idx ← mapM (fun n => column_index n (columns df)) value_vars;
  Ok (mkFrame [id_var; var_name; value_name]
        (range_index 0
           (flat_map
              (fun nj => map (fun r => [cell_at i r; Text (fst nj); cell_at (snd nj) r])
                           (rows df))
              (combine value_vars idx)))).

(** [df_long] of the chart column. *)
Definition df_long {G} (gdf_idse : frame G) : result (frame unit) :=
  df ← select_columns ["idse_new"; "pop_se"; "pop_se_ct"] gdf_idse;
  melt "idse_new" "Type" "Population" df.

(** ** Sums, for the statements *)

(** The float sum of a list from its first value on, zero when empty. *)
Definition fsum (xs : list f64) : f64 :=
  match xs with
  | [] => fzero
  | x :: rest => fold_left fadd rest x
  end.

Definition nan_to_zero (x : f64) : f64 := if isnan x then fzero else x.

(** ** Rows as the loader returns them *)

(** The row [load_points] makes of a CSV row whose coordinates sit at
    positions [lat] and [lon] of the header. *)
Definition loaded_row (lat lon : nat) (r : row unit) : row point :=
  let r' := map_cell lon (fun c => Num (to_numeric_coerce c))
              (map_cell lat (fun c => Num (to_numeric_coerce c)) r) in
  mkRow (label r') (cells r')
    (mkPoint (as_float (cell_at lon r')) (as_float (cell_at lat r'))).

(** Both coordinates of a CSV row read as something else than NaN. *)
Definition has_coordinates (lat lon : nat) (r : row unit) : bool :=
  negb (isnan (to_numeric_coerce (cell_at lat r)))
  && negb (isnan (to_numeric_coerce (cell_at lon r))).

(** ** Rows as the safe join sees them *)

(** A polygon row once the cells under [index_] names are gone; [cols]
    is the header the row belonged to. *)
Definition stripped_row {G} (cols : list string) (r : row G) : row G :=
  mkRow (label r)
    (keep_where (map (fun c => negb (startswith "index_" c)) cols) (cells r))
    (geometry r).

(** [a <= b] between two texts, as Python compares str: not [b < a]. *)
Definition text_le (a b : cell) : Prop :=
  match a, b with
  | Text s, Text t => string_ltb t s = false
  | _, _ => False
  end.

(** A head count as a cell holds it: an integer, or nothing. *)
Definition count_value (z : option Z) : f64 :=
  match z with
  | Some n => Fin (inject_Z n)
  | None => NaN
  end.

(** The sum of head counts, nothing counting as zero, and the sum of
    their magnitudes, which bounds every partial sum. *)
Definition count_total (zs : list (option Z)) : Z :=
  fold_left Z.add (map (default 0%Z) zs) 0%Z.

Definition count_magnitude (zs : list (option Z)) : Z :=
  fold_left Z.add (map (fun z => Z.abs (default 0%Z z)) zs) 0%Z.

(** The float [x] is the integer [n]. *)
Definition integral (x : f64) (n : Z) : Prop :=
  exists q, x = Fin q /\ Qnum q = n /\ Qden q = 1%positive.

(** Two sums a pie chart can be drawn from: none negative, not both
    zero. *)
Definition drawable (m f : Z) : bool :=
  ((0 <=? m) && (0 <=? f) && (0 <? m + f))%Z.

(** Every row is as wide as the header. *)
Definition rows_fit {G} (df : frame G) : Prop :=
  Forall (fun r => length (cells r) = length (columns df)) (rows df).

(** The column [name] is there and holds [v] in every row. *)
Definition column_holds {G} (name : string) (v : cell) (df : frame G) : Prop :=
  exists i, position name (columns df) = Some i /\
            forall r, In r (rows df) -> cell_at i r = v.

(** ** Facts about the table primitives *)

Lemma position_In name cols :
  In name cols -> exists i, position name cols = Some i.
Proof.
  induction cols as [|c cols IH]; simpl; [intros []|].
  intros [->|Hin].
  - rewrite String.eqb_refl. eauto.
  - destruct (String.eqb c name); [eauto|].
    destruct (IH Hin) as [i ->]. eauto.
Qed.

Lemma position_inj a b cols i :
  position a cols = Some i -> position b cols = Some i -> a = b.
Proof.
  revert i. induction cols as [|c cols IH]; simpl; [discriminate|].
  intros i.
  destruct (String.eqb c a) eqn:Ea, (String.eqb c b) eqn:Eb.
  - apply String.eqb_eq in Ea, Eb. congruence.
  - destruct (position b cols); [|discriminate]. congruence.
  - destruct (position a cols); [|discriminate]. congruence.
  - destruct (position a cols) eqn:Pa, (position b cols) eqn:Pb; try discriminate.
    intros [= <-] [= ->]. eauto.
Qed.

Lemma nth_replace_nth_same {A} (f : A -> A) d i (l : list A) :
  f d = d -> nth i (replace_nth i f l) d = f (nth i l d).
Proof.
  intros Hd. revert i. induction l as [|x l IH]; intros [|i]; simpl; auto.
Qed.

Lemma nth_replace_nth_other {A} (f : A -> A) d i j (l : list A) :
  i <> j -> nth j (replace_nth i f l) d = nth j l d.
Proof.
  revert i j. induction l as [|x l IH]; intros [|i] [|j] Hne; simpl; auto;
    congruence.
Qed.

Lemma cell_at_coerced {G} i (r : row G) :
  cell_at i (map_cell i (fun c => Num (to_numeric_coerce c)) r)
  = Num (to_numeric_coerce (cell_at i r)).
Proof.
  unfold cell_at, map_cell. simpl.
  now rewrite nth_replace_nth_same.
Qed.

Lemma cell_at_map_cell_other {G} f i j (r : row G) :
  i <> j -> cell_at j (map_cell i f r) = cell_at j r.
Proof.
  intros Hne. unfold cell_at, map_cell. simpl.
  now apply nth_replace_nth_other.
Qed.

(** ** LOAD CONCESSION POINTS: which rows survive *)

Lemma loaded_row_geometry lat lon (r : row unit) :
  lat <> lon ->
  geometry (loaded_row lat lon r)
  = mkPoint (to_numeric_coerce (cell_at lon r)) (to_numeric_coerce (cell_at lat r)).
Proof.
  intros Hne. unfold loaded_row. simpl.
  rewrite cell_at_coerced.
  rewrite (cell_at_map_cell_other _ lon lat) by congruence.
  rewrite cell_at_coerced.
  rewrite (cell_at_map_cell_other _ lat lon) by congruence.
  reflexivity.
Qed.

Lemma has_coordinates_loaded lat lon (r : row unit) :
  lat <> lon ->
  forallb
    (fun i => negb (isna (cell_at i
       (map_cell lon (fun c => Num (to_numeric_coerce c))
          (map_cell lat (fun c => Num (to_numeric_coerce c)) r)))))
    [lat; lon]
  = has_coordinates lat lon r.
Proof.
  intros Hne. unfold has_coordinates. simpl.
  rewrite cell_at_coerced.
  rewrite (cell_at_map_cell_other _ lon lat) by congruence.
  rewrite cell_at_coerced.
  rewrite (cell_at_map_cell_other _ lat lon) by congruence.
  simpl. now rewrite andb_true_r.
Qed.

Lemma filter_map_commute {A B} (f : A -> B) (p : B -> bool) (l : list A) :
  List.filter p (map f l) = map f (List.filter (fun x => p (f x)) l).
Proof.
  induction l as [|x l IH]; simpl; [reflexivity|].
  destruct (p (f x)); simpl; now rewrite IH.
Qed.

(** C2, as amended: when the CSV has the two coordinate columns,
    [load_points] returns, keeps the header, and returns exactly the rows
    whose LAT and LON both read as a number other than NaN, in their
    order and under their labels; a row with an infinite coordinate is
    among them. *)
Theorem load_points_survival (df : frame unit) :
  In "LAT" (columns df) -> In "LON" (columns df) ->
  exists out lat lon,
    position "LAT" (columns df) = Some lat /\
    position "LON" (columns df) = Some lon /\
    load_points df = Ok out /\
    columns out = columns df /\
    rows out
    = map (loaded_row lat lon) (List.filter (has_coordinates lat lon) (rows df)) /\
    forall r, In r (rows df) ->
      (In (loaded_row lat lon r) (rows out)
       <-> isnan (to_numeric_coerce (cell_at lat r)) = false
           /\ isnan (to_numeric_coerce (cell_at lon r)) = false).
Proof.
  intros Hlat Hlon.
  destruct (position_In _ _ Hlat) as [lat Plat].
  destruct (position_In _ _ Hlon) as [lon Plon].
  assert (Hne : lat <> lon).
  { intros ->. pose proof (position_inj _ _ _ _ Plat Plon). discriminate. }
  exists (mkFrame (columns df)
            (map (loaded_row lat lon)
               (List.filter (has_coordinates lat lon) (rows df)))), lat, lon.
  split; [assumption|]. split; [assumption|]. split.
  { unfold load_points, coerce_column, dropna, with_points, column_index.
    rewrite Plat. cbn. rewrite Plon. cbn. rewrite Plat, Plon. cbn.
    rewrite Plon, Plat. cbn.
    do 2 f_equal. rewrite map_map, filter_map_commute, map_map.
    erewrite List.filter_ext; [reflexivity|].
    intros r. cbv beta.
    rewrite <- (has_coordinates_loaded lat lon r Hne). reflexivity. }
  split; [reflexivity|]. split; [reflexivity|].
  intros r Hr. cbn [rows]. rewrite in_map_iff. split.
  - intros (r0 & Heq & Hin). apply filter_In in Hin. destruct Hin as [_ Hk].
    apply (f_equal geometry) in Heq.
    rewrite !loaded_row_geometry in Heq by assumption.
    injection Heq as Hx Hy.
    unfold has_coordinates in Hk. rewrite Hx, Hy in Hk.
    apply andb_true_iff in Hk. destruct Hk as [H1 H2].
    apply negb_true_iff in H1, H2. auto.
  - intros [H1 H2]. exists r. split; [reflexivity|].
    apply filter_In. split; [assumption|].
    unfold has_coordinates. now rewrite H1, H2.
Qed.

(** ** SAFE SPATIAL JOIN: the clean-up loop *)

Lemma keep_where_nil {A} (mask : list bool) : keep_where mask (@nil A) = [].
Proof. now destruct mask as [|[] mask]. Qed.

Lemma keep_where_filter {A} (f : A -> bool) (l : list A) :
  keep_where (map f l) l = List.filter f l.
Proof.
  induction l as [|x l IH]; simpl; [reflexivity|].
  destruct (f x); now rewrite IH.
Qed.

Lemma filter_all {A} (f : A -> bool) (l : list A) :
  (forall x, f x = true) -> List.filter f l = l.
Proof.
  intros Hf. induction l as [|x l IH]; simpl; [reflexivity|].
  now rewrite Hf, IH.
Qed.

Lemma keep_where_all {A B} (cols : list B) (l : list A) :
  length l = length cols -> keep_where (map (fun _ => true) cols) l = l.
Proof.
  revert l. induction cols as [|c cols IH]; intros [|x l] Hlen;
    simpl in *; try discriminate; [reflexivity|].
  f_equal. apply IH. now injection Hlen.
Qed.

Lemma keep_where_length {A B} (mask : list bool) (l : list A) (k : list B) :
  length l = length k ->
  length (keep_where mask l) = length (keep_where mask k).
Proof.
  revert l k. induction mask as [|b mask IH]; intros [|x l] [|y k] Hlen;
    simpl in *; try discriminate; try reflexivity.
  injection Hlen as Hlen.
  destruct b; simpl; rewrite (IH l k) by assumption; reflexivity.
Qed.

Lemma keep_where_compose {A B} (p q : B -> bool) (cols : list B) (l : list A) :
  keep_where (map q (keep_where (map p cols) cols)) (keep_where (map p cols) l)
  = keep_where (map (fun x => p x && q x) cols) l.
Proof.
  revert l. induction cols as [|c cols IH]; intros [|x l]; simpl;
    try reflexivity.
  - destruct (p c); simpl; [|apply keep_where_nil].
    now destruct (q c).
  - destruct (p c); simpl; [|apply IH].
    destruct (q c); simpl; now rewrite IH.
Qed.

Lemma mem_string_In c l : mem_string c l = true <-> In c l.
Proof.
  unfold mem_string. rewrite existsb_exists. split.
  - intros (x & Hin & Heq). apply String.eqb_eq in Heq. now subst.
  - intros Hin. exists c. split; [assumption|apply String.eqb_refl].
Qed.

Lemma drop_present {G} (name : string) (df : frame G) :
  In name (columns df) ->
  drop name df
  = Ok (mkFrame
          (List.filter (fun c => negb (String.eqb name c)) (columns df))
          (map (fun r => mkRow (label r)
                           (keep_where
                              (map (fun c => negb (String.eqb name c)) (columns df))
                              (cells r))
                           (geometry r))
             (rows df))).
Proof.
  intros Hin. unfold drop.
  apply mem_string_In in Hin. unfold mem_string in Hin. rewrite Hin.
  now rewrite keep_where_filter.
Qed.

Lemma drop_absent {G} (name : string) (df : frame G) :
  ~ In name (columns df) -> drop name df = Raise KeyError.
Proof.
  intros Hnot. unfold drop.
  destruct (existsb (String.eqb name) (columns df)) eqn:E; [|reflexivity].
  exfalso. apply Hnot. now apply mem_string_In.
Qed.

Lemma filter_filter {A} (f g : A -> bool) (l : list A) :
  List.filter f (List.filter g l) = List.filter (fun x => g x && f x) l.
Proof.
  induction l as [|x l IH]; simpl; [reflexivity|].
  destruct (g x); simpl; [destruct (f x)|]; now rewrite IH.
Qed.

Lemma gone_dropped c names x :
  startswith "index_" c = true ->
  negb (String.eqb c x) && negb (startswith "index_" x && mem_string x names)
  = negb (startswith "index_" x && mem_string x (c :: names)).
Proof.
  intros Hsw. unfold mem_string. simpl. rewrite (String.eqb_sym x c).
  destruct (String.eqb c x) eqn:E; simpl.
  - apply String.eqb_eq in E. subst x. now rewrite Hsw.
  - reflexivity.
Qed.

Lemma gone_kept c names x :
  startswith "index_" c = false ->
  negb (startswith "index_" x && mem_string x names)
  = negb (startswith "index_" x && mem_string x (c :: names)).
Proof.
  intros Hsw. unfold mem_string. simpl.
  destruct (String.eqb x c) eqn:E; simpl; [|reflexivity].
  apply String.eqb_eq in E. subst x. now rewrite Hsw.
Qed.

(** The loop over any list [names] of distinct column names of the
    table: the names among them that start with [index_] go, the rest of
    the table stays. *)
Lemma strip_loop {G} (names : list string) (df : frame G) :
  NoDup names ->
  (forall c, In c names -> In c (columns df)) ->
  Forall (fun r => length (cells r) = length (columns df)) (rows df) ->
  let gone c := startswith "index_" c && mem_string c names in
  fold_left
    (fun acc col =>
       p ← acc;
       if startswith "index_" col then drop col p else Ok p)
    names (Ok df)
  = Ok (mkFrame
          (List.filter (fun c => negb (gone c)) (columns df))
          (map (fun r => mkRow (label r)
                           (keep_where (map (fun c => negb (gone c)) (columns df))
                              (cells r))
                           (geometry r))
             (rows df))).
Proof.
  revert df. induction names as [|c names IH]; intros df Hnd Hsub Hwf gone.
  - assert (Hg : forall c, negb (gone c) = true).
    { intros c. subst gone. simpl. now rewrite andb_false_r. }
    simpl. destruct df as [cols rs]. simpl in *. f_equal. f_equal.
    + symmetry. now apply filter_all.
    + rewrite <- (map_id rs) at 1. apply map_ext_in.
      intros r Hr. rewrite List.Forall_forall in Hwf. specialize (Hwf r Hr).
      destruct r as [l cs g]. simpl in *. f_equal.
      rewrite (map_ext _ (fun _ => true)) by exact Hg.
      symmetry. now apply keep_where_all.
  - inversion Hnd as [|? ? Hc Hnd']; subst.
    cbn [fold_left]. cbn [mbind result_bind].
    destruct (startswith "index_" c) eqn:Esw.
    + rewrite drop_present by (apply Hsub; now left).
      rewrite IH; clear IH.
      * cbn [columns rows]. f_equal. f_equal.
        -- rewrite filter_filter. apply List.filter_ext.
           intros x. now apply gone_dropped.
        -- rewrite map_map. apply map_ext. intros r. cbn [label cells geometry].
           f_equal. rewrite <- keep_where_filter, keep_where_compose.
           f_equal. apply map_ext. intros x. now apply gone_dropped.
      * assumption.
      * cbn [columns]. intros x Hx. apply filter_In. split.
        -- apply Hsub. now right.
        -- apply negb_true_iff, String.eqb_neq. intros ->.
           apply Hc. now apply list_elem_of_In.
      * cbn [columns rows]. apply List.Forall_forall. intros r' Hr'.
        apply in_map_iff in Hr'. destruct Hr' as (r & <- & Hr).
        rewrite List.Forall_forall in Hwf. specialize (Hwf r Hr).
        cbn [cells]. rewrite <- keep_where_filter.
        now apply keep_where_length.
    + rewrite IH; clear IH.
      * f_equal. f_equal.
        -- apply List.filter_ext. intros x. now apply gone_kept.
        -- apply map_ext. intros r. do 2 f_equal.
           apply map_ext. intros x. now apply gone_kept.
      * assumption.
      * intros x Hx. apply Hsub. now right.
      * assumption.
Qed.


Lemma strip_index_columns_spec {G} (polygons : frame G) :
  well_formed polygons ->
  strip_index_columns polygons
  = Ok (mkFrame
          (List.filter (fun c => negb (startswith "index_" c)) (columns polygons))
          (map (stripped_row (columns polygons)) (rows polygons))).
Proof.
  intros [Hnd Hwf]. unfold strip_index_columns.
  rewrite strip_loop; try assumption; [|auto].
  f_equal. f_equal.
  - apply List.filter_ext_in. intros c Hc.
    apply mem_string_In in Hc. now rewrite Hc, andb_true_r.
  - apply map_ext. intros r. unfold stripped_row. do 2 f_equal.
    apply map_ext_in. intros c Hc.
    apply mem_string_In in Hc. now rewrite Hc, andb_true_r.
Qed.

Lemma reserved_startswith c :
  is_reserved c = true -> startswith "index_" c = true.
Proof.
  unfold is_reserved, reserved. simpl. rewrite !orb_true_iff.
  intros [H|[H|H]]; try discriminate;
    apply String.eqb_eq in H; subst c; reflexivity.
Qed.

Lemma no_reserved_after_strip (cols : list string) :
  existsb is_reserved
    (List.filter (fun c => negb (startswith "index_" c)) cols) = false.
Proof.
  apply not_true_is_false. intros H.
  apply existsb_exists in H. destruct H as (c & Hin & Hres).
  apply filter_In in Hin. destruct Hin as [_ Hsw].
  apply reserved_startswith in Hres. rewrite Hres in Hsw. discriminate.
Qed.

Lemma intersecting_pairs_In points polygons p q :
  In (p, q) (intersecting_pairs points polygons)
  <-> In p (rows points) /\ In q (rows polygons)
      /\ intersects (geometry p) (geometry q) = true.
Proof.
  unfold intersecting_pairs. rewrite in_flat_map. split.
  - intros (p0 & Hp0 & Hin). apply in_map_iff in Hin.
    destruct Hin as (q0 & [= <- <-] & Hq0).
    apply filter_In in Hq0. destruct Hq0. auto.
  - intros (Hp & Hq & Hi). exists p. split; [assumption|].
    apply in_map_iff. exists q. split; [reflexivity|].
    apply filter_In. auto.
Qed.

Lemma intersects_spec p g : intersects p g = true <-> locate p g <> Exterior.
Proof. unfold intersects. destruct (locate p g); split; congruence. Qed.

Lemma within_spec p g : within p g = true <-> locate p g = Interior.
Proof. unfold within. destruct (locate p g); split; congruence. Qed.

(** The safe join on a well-formed polygon table: the clean-up returns,
    and the join is the library join on the stripped table. *)
Lemma safe_sjoin_unfold points polygons :
  well_formed polygons ->
  safe_sjoin points polygons
  = sjoin points
      (mkFrame
         (List.filter (fun c => negb (startswith "index_" c)) (columns polygons))
         (map (stripped_row (columns polygons)) (rows polygons))).
Proof.
  intros Hwf. unfold safe_sjoin. now rewrite strip_index_columns_spec.
Qed.

Lemma sjoin_rows points polygons :
  existsb is_reserved (columns points) = false ->
  existsb is_reserved (columns polygons) = false ->
  exists out,
    sjoin points polygons = Ok out /\
    rows out = map join_row (intersecting_pairs points polygons).
Proof.
  intros Hp Hq. unfold sjoin. rewrite existsb_app, Hp, Hq. simpl.
  eexists. split; reflexivity.
Qed.

(** C8, as amended: on a well-formed polygon table, one whose column
    names are pairwise distinct, the clean-up of [safe_sjoin] returns the
    table without the columns whose name starts with [index_] and with
    every other column in place, the join then runs on that table, none
    of its columns is one the join refuses, and so the join goes through
    whenever the point table brings no column named index_left or
    index_right, also for a polygon table that came out of an earlier
    join. *)
Theorem safe_sjoin_strips_index_columns
    (points : frame point) (polygons : frame geom) :
  well_formed polygons ->
  exists stripped,
    strip_index_columns polygons = Ok stripped /\
    safe_sjoin points polygons = sjoin points stripped /\
    columns stripped
    = List.filter (fun c => negb (startswith "index_" c)) (columns polygons) /\
    rows stripped = map (stripped_row (columns polygons)) (rows polygons) /\
    (forall c, In c (columns stripped) <->
               In c (columns polygons) /\ startswith "index_" c = false) /\
    existsb is_reserved (columns stripped) = false /\
    (existsb is_reserved (columns points) = false ->
     succeeds (safe_sjoin points polygons)).
Proof.
  intros Hwf. eexists. split; [now apply strip_index_columns_spec|].
  split; [now apply safe_sjoin_unfold|].
  cbn [columns rows]. split; [reflexivity|]. split; [reflexivity|].
  split; [|split].
  - intros c. rewrite filter_In, negb_true_iff. reflexivity.
  - apply no_reserved_after_strip.
  - intros Hpts. rewrite safe_sjoin_unfold by assumption.
    destruct (sjoin_rows points
                (mkFrame
                   (List.filter (fun c => negb (startswith "index_" c))
                      (columns polygons))
                   (map (stripped_row (columns polygons)) (rows polygons))))
      as (out & Hout & _); [assumption|apply no_reserved_after_strip|].
    now exists out.
Qed.

(** C7, as amended: for a point table with no column named [index_left]
    or [index_right] and a well-formed polygon table without rows,
    [safe_sjoin] returns a table without rows. *)
Theorem safe_sjoin_empty_polygons
    (points : frame point) (polygons : frame geom) :
  well_formed polygons ->
  rows polygons = [] ->
  existsb is_reserved (columns points) = false ->
  exists out, safe_sjoin points polygons = Ok out /\ rows out = [].
Proof.
  intros Hwf Hrows Hpts. rewrite safe_sjoin_unfold by assumption.
  destruct (sjoin_rows points
              (mkFrame
                 (List.filter (fun c => negb (startswith "index_" c))
                    (columns polygons))
                 (map (stripped_row (columns polygons)) (rows polygons))))
    as (out & Hout & Hr); [assumption|apply no_reserved_after_strip|].
  exists out. split; [assumption|].
  rewrite Hr. unfold intersecting_pairs. cbn [rows]. rewrite Hrows. simpl.
  induction (rows points) as [|p ps IH]; simpl; [reflexivity|assumption].
Qed.

(** C1: with the join going through, a row is in the result of
    [safe_sjoin] exactly when it joins a point with a polygon of the
    subset that the point is not outside of, and a point is in the
    drawn-polygon selection exactly when it is in the interior of the
    drawn geometry; so a point on the boundary of a polygon of the subset
    is joined to it, and a point on the boundary of the drawn geometry is
    not selected. *)
Theorem spatial_predicates_differ
    (points : frame point) (polygons : frame geom) (poly : geom) :
  well_formed polygons ->
  existsb is_reserved (columns points) = false ->
  exists pts_se,
    safe_sjoin points polygons = Ok pts_se /\
    (forall j, In j (rows pts_se) <->
       exists p q, In p (rows points) /\ In q (rows polygons) /\
                   locate (geometry p) (geometry q) <> Exterior /\
                   j = join_row (p, stripped_row (columns polygons) q)) /\
    (forall p, In p (rows (pts_poly points poly)) <->
       In p (rows points) /\ locate (geometry p) poly = Interior) /\
    (forall p q, In p (rows points) -> In q (rows polygons) ->
       locate (geometry p) (geometry q) = Boundary ->
       In (join_row (p, stripped_row (columns polygons) q)) (rows pts_se)) /\
    (forall p, locate (geometry p) poly = Boundary ->
       ~ In p (rows (pts_poly points poly))).
Proof.
  intros Hwf Hpts. rewrite safe_sjoin_unfold by assumption.
  destruct (sjoin_rows points
              (mkFrame
                 (List.filter (fun c => negb (startswith "index_" c))
                    (columns polygons))
                 (map (stripped_row (columns polygons)) (rows polygons))))
    as (out & Hout & Hr); [assumption|apply no_reserved_after_strip|].
  exists out. split; [assumption|].
  assert (Hjoin : forall j, In j (rows out) <->
       exists p q, In p (rows points) /\ In q (rows polygons) /\
                   locate (geometry p) (geometry q) <> Exterior /\
                   j = join_row (p, stripped_row (columns polygons) q)).
  { intros j. rewrite Hr, in_map_iff. split.
    - intros ([p q'] & <- & Hin). apply intersecting_pairs_In in Hin.
      cbn [rows] in Hin. destruct Hin as (Hp & Hq' & Hi).
      apply in_map_iff in Hq'. destruct Hq' as (q & <- & Hq).
      exists p, q. repeat split; try assumption.
      now apply intersects_spec in Hi.
    - intros (p & q & Hp & Hq & Hloc & ->).
      exists (p, stripped_row (columns polygons) q). split; [reflexivity|].
      apply intersecting_pairs_In. cbn [rows]. repeat split.
      + assumption.
      + now apply in_map.
      + now apply intersects_spec. }
  assert (Hwithin : forall p, In p (rows (pts_poly points poly)) <->
       In p (rows points) /\ locate (geometry p) poly = Interior).
  { intros p. unfold pts_poly. cbn [rows].
    rewrite filter_In, within_spec. reflexivity. }
  split; [exact Hjoin|]. split; [exact Hwithin|]. split.
  - intros p q Hp Hq Hb. apply Hjoin. exists p, q.
    repeat split; try assumption. congruence.
  - intros p Hb Hin. apply Hwithin in Hin. destruct Hin as [_ Hi]. congruence.
Qed.

(** ** SIDEBAR: the candidate lists *)

Lemma string_ltb_lt s t : string_ltb s t = true <-> String_as_OT.lt s t.
Proof.
  unfold string_ltb, String_as_OT.lt.
  destruct (String_as_OT.compare s t); split; congruence.
Qed.

Lemma string_ltb_irrefl s : string_ltb s s = false.
Proof.
  apply not_true_is_false. rewrite string_ltb_lt.
  apply (StrictOrder_Irreflexive (R := String_as_OT.lt)).
Qed.

Lemma string_ltb_trans s t u :
  string_ltb s t = true -> string_ltb t u = true -> string_ltb s u = true.
Proof.
  rewrite !string_ltb_lt.
  apply (StrictOrder_Transitive (R := String_as_OT.lt)).
Qed.

Lemma string_ltb_asym s t : string_ltb s t = true -> string_ltb t s = false.
Proof.
  intros H. apply not_true_is_false. intros H'.
  pose proof (string_ltb_trans _ _ _ H H') as Hss.
  rewrite string_ltb_irrefl in Hss. discriminate.
Qed.

Lemma string_ltb_total s t :
  string_ltb s t = true \/ s = t \/ string_ltb t s = true.
Proof.
  rewrite !string_ltb_lt.
  destruct (String_as_OT.compare_spec s t) as [H|H|H]; auto.
Qed.

(** [s <= t] is [not (t < s)]. *)
Lemma string_le_trans s t u :
  string_ltb t s = false -> string_ltb u t = false -> string_ltb u s = false.
Proof.
  intros Hst Htu. apply not_true_is_false. intros Hus.
  destruct (string_ltb_total s t) as [H|[->|H]]; try congruence.
  destruct (string_ltb_total t u) as [H'|[->|H']]; try congruence.
  pose proof (string_ltb_trans _ _ _ H H') as Hsu.
  apply string_ltb_asym in Hsu. congruence.
Qed.

Lemma same_value_refl c : same_value c c = true.
Proof.
  unfold same_value. destruct c as [[q| | |]|s]; simpl; try reflexivity.
  - rewrite orb_false_r. now apply Qeq_bool_iff.
  - now rewrite String.eqb_refl.
Qed.

Lemma same_value_text c s : same_value c (Text s) = true <-> c = Text s.
Proof.
  unfold same_value. destruct c as [x|t]; simpl.
  - rewrite andb_false_r. split; discriminate.
  - rewrite orb_false_r, String.eqb_eq. split; congruence.
Qed.

Lemma unique_incl l x : In x (unique l) -> In x l.
Proof.
  induction l as [|y l IH]; simpl; [intros []|].
  intros [->|Hin]; [now left|].
  apply filter_In in Hin. right. apply IH. now destruct Hin.
Qed.

Lemma unique_text l s : In (Text s) l -> In (Text s) (unique l).
Proof.
  induction l as [|y l IH]; simpl; [intros []|].
  intros Hin.
  destruct (same_value y (Text s)) eqn:E.
  - apply same_value_text in E. now left.
  - right. apply filter_In. split; [|now rewrite E].
    destruct Hin as [->|Hin]; [|now apply IH].
    rewrite same_value_refl in E. discriminate.
Qed.

Lemma unique_NoDup l : List.NoDup (unique l).
Proof.
  induction l as [|y l IH]; simpl; constructor.
  - intros Hin. apply filter_In in Hin. destruct Hin as [_ Hin].
    rewrite same_value_refl in Hin. discriminate.
  - now apply List.NoDup_filter.
Qed.

Lemma insert_sorted_text (s : string) (l : list cell) :
  Forall (fun c => is_text c = true) l ->
  StronglySorted text_le l ->
  exists l',
    insert_sorted (Text s) l = Ok l' /\
    Permutation (Text s :: l) l' /\
    StronglySorted text_le l'.
Proof.
  induction l as [|y l IH]; intros Htxt Hs.
  - exists [Text s]. repeat split; auto. repeat constructor.
  - inversion Htxt as [|? ? Hy Htxt']; subst.
    inversion Hs as [|? ? Hs' Hall]; subst.
    destruct y as [x|t]; [discriminate|]. cbn.
    destruct (string_ltb t s) eqn:E.
    + destruct (IH Htxt' Hs') as (r & -> & Hperm & Hsr). cbn.
      exists (Text t :: r). split; [reflexivity|]. split.
      * rewrite perm_swap. now apply perm_skip.
      * constructor; [assumption|].
        eapply Permutation_Forall; [exact Hperm|].
        constructor; [|assumption].
        cbn. now apply string_ltb_asym.
    + exists (Text s :: Text t :: l). split; [reflexivity|].
      split; [reflexivity|].
      constructor; [assumption|].
      constructor; [exact E|].
      rewrite List.Forall_forall in Hall |- *. intros z Hz.
      specialize (Hall z Hz). destruct z as [x|u]; [contradiction|].
      cbn in *. eapply string_le_trans; eassumption.
Qed.

Lemma sorted_text (l : list cell) :
  Forall (fun c => is_text c = true) l ->
  exists l',
    sorted l = Ok l' /\ Permutation l l' /\ StronglySorted text_le l'.
Proof.
  induction l as [|x l IH]; intros Htxt.
  - exists []. repeat split; auto. constructor.
  - inversion Htxt as [|? ? Hx Htxt']; subst.
    destruct (IH Htxt') as (r & Hr & Hperm & Hsr).
    destruct x as [x|s]; [discriminate|]. cbn. rewrite Hr. cbn.
    destruct (insert_sorted_text s r) as (r' & Hr' & Hperm' & Hsr').
    + eapply Permutation_Forall; eassumption.
    + assumption.
    + exists r'. split; [assumption|]. split; [|assumption].
      rewrite <- Hperm'. now apply perm_skip.
Qed.

Lemma texts_of (l : list cell) :
  Forall (fun c => is_text c = true) l -> exists L, l = map Text L.
Proof.
  induction 1 as [|c l Hc _ [L ->]].
  - now exists [].
  - destruct c as [x|s]; [discriminate|]. now exists (s :: L).
Qed.

Lemma strictly_sorted_texts (L : list string) :
  StronglySorted text_le (map Text L) ->
  List.NoDup (map Text L) ->
  StronglySorted (fun s t => string_ltb s t = true) L.
Proof.
  induction L as [|a L IH]; intros Hs Hnd; cbn in *; [constructor|].
  inversion Hs as [|? ? Hs' Hall]; subst.
  inversion Hnd as [|? ? Ha Hnd']; subst.
  constructor; [now apply IH|].
  rewrite List.Forall_forall in Hall |- *. intros t Ht.
  specialize (Hall (Text t) (in_map Text _ _ Ht)). cbn in Hall.
  destruct (string_ltb_total a t) as [H|[->|H]].
  - assumption.
  - exfalso. apply Ha. now apply in_map.
  - congruence.
Qed.

(** C3, as amended: when the idse_new cells of the selected commune's
    subset are texts, the candidate list of the SE box is "No filter"
    followed by exactly the distinct idse_new values of the subset in
    strictly increasing lexical order. *)
Theorem idse_list_sorted_distinct {G} (sub : frame G) (vs : list cell) :
  getitem sub "idse_new" = Ok vs ->
  Forall (fun c => is_text c = true) vs ->
  exists L,
    idse_list sub = Ok (Text "No filter" :: map Text L) /\
    StronglySorted (fun s t => string_ltb s t = true) L /\
    (forall s, In s L <-> In (Text s) vs).
Proof.
  intros Hget Htxt.
  assert (Hu : Forall (fun c => is_text c = true) (unique vs)).
  { rewrite List.Forall_forall in Htxt |- *. intros c Hc.
    apply Htxt. now apply unique_incl. }
  destruct (sorted_text (unique vs) Hu) as (l' & Hsorted & Hperm & Hs).
  destruct (texts_of l') as [L ->].
  { eapply Permutation_Forall; eassumption. }
  exists L. split; [|split].
  - unfold idse_list, options. rewrite Hget. cbn. rewrite Hsorted. reflexivity.
  - apply strictly_sorted_texts; [assumption|].
    eapply Permutation_NoDup; [exact Hperm|apply unique_NoDup].
  - intros s. split.
    + intros Hin. apply unique_incl.
      eapply Permutation_in; [symmetry; exact Hperm|now apply in_map].
    + intros Hin. apply unique_text in Hin.
      eapply Permutation_in in Hin; [|exact Hperm].
      apply in_map_iff in Hin. destruct Hin as (t & [= ->] & Ht). assumption.
Qed.

Lemma cell_eqb_text c s : cell_eqb c (Text s) = true <-> c = Text s.
Proof.
  destruct c as [x|t]; simpl; [split; discriminate|].
  rewrite String.eqb_eq. split; congruence.
Qed.

(** C4: with "No filter" selected, [gdf_idse] is the commune subset
    itself; with a zone id other than that word selected, it is the
    commune subset restricted to the rows whose idse_new cell is that
    id, in their order. *)
Theorem gdf_idse_selection {G} (parent : frame G) (id : string) (i : nat) :
  position "idse_new" (columns parent) = Some i ->
  id <> "No filter" ->
  gdf_idse parent (Text "No filter") = Ok parent /\
  exists sub,
    gdf_idse parent (Text id) = Ok sub /\
    columns sub = columns parent /\
    rows sub
    = List.filter (fun r => cell_eqb (cell_at i r) (Text id)) (rows parent) /\
    (forall r, In r (rows sub) <->
               In r (rows parent) /\ cell_at i r = Text id).
Proof.
  intros Hpos Hid. split; [reflexivity|].
  unfold gdf_idse, no_filter. cbn [cell_eqb].
  apply String.eqb_neq in Hid. rewrite Hid.
  unfold select_eq, column_index. rewrite Hpos. cbn.
  eexists. split; [reflexivity|]. cbn [columns rows].
  split; [reflexivity|]. split; [reflexivity|].
  intros r. rewrite filter_In, cell_eqb_text. reflexivity.
Qed.

(** ** Aggregation on an empty selection, and the last drawing *)

Lemma get_no_rows (pts : frame point) (name : string) :
  rows pts = [] -> default [] (get pts name) = [].
Proof.
  intros Hrows. unfold get.
  destruct (position name (columns pts)); [|reflexivity].
  now rewrite Hrows.
Qed.

Lemma se_totals_no_rows (pts_se : frame point) :
  rows pts_se = [] -> se_totals pts_se = Raise ValueError.
Proof.
  intros Hrows. unfold se_totals, plain_sum.
  rewrite !get_no_rows by assumption. reflexivity.
Qed.


Lemma last_feature_app d ds f : last_feature d (ds ++ [f]) = f.
Proof.
  revert d. induction ds as [|d' ds IH]; intros d; simpl; [reflexivity|].
  apply IH.
Qed.

(** C10: the polygon block reads the last element of the drawings list
    alone: with [f] drawn last it shows what it shows for [f] drawn
    alone, namely the statistics of the points within the geometry of
    [f]; a point in the interior of an earlier drawing and not in the
    interior of the last one is not among them. *)
Theorem polygon_block_last_drawing
    (points : frame point) (ds : list feature) (f : feature) :
  polygon_block points (ds ++ [f]) = polygon_block points [f] /\
  forall poly, feature_geometry f = Some poly ->
    polygon_block points (ds ++ [f])
    = polygon_statistics (pts_poly points poly) /\
    forall p g, In (mkFeature (Some g)) ds ->
      locate (geometry p) g = Interior ->
      locate (geometry p) poly <> Interior ->
      ~ In p (rows (pts_poly points poly)).
Proof.
  assert (Hlast : polygon_block points (ds ++ [f]) = polygon_block points [f]).
  { unfold polygon_block. destruct ds as [|d ds]; [reflexivity|].
    cbn [app]. now rewrite last_feature_app. }
  split; [exact Hlast|].
  intros poly Hf. split.
  - rewrite Hlast. unfold polygon_block. cbn [last_feature]. now rewrite Hf.
  - intros p g _ _ Hout Hin. unfold pts_poly in Hin. cbn [rows] in Hin.
    apply filter_In in Hin. destruct Hin as [_ Hw].
    now apply within_spec in Hw.
Qed.

(** ** Aggregation where the columns are as expected *)

Lemma fold_py_add_numeric (xs : list f64) (x : f64) :
  fold_left (fun acc c => a ← acc; py_add a c) (map Num xs) (Ok (Num x))
  = Ok (Num (fold_left fadd xs x)).
Proof.
  revert x. induction xs as [|y xs IH]; intros x; simpl; [reflexivity|].
  apply IH.
Qed.

(** On numbers [Series.sum()] is the float sum with NaN counted as zero. *)
Lemma series_sum_numeric (xs : list f64) :
  series_sum (map Num xs) = Ok (Num (fsum (map nan_to_zero xs))).
Proof.
  unfold series_sum. rewrite map_map.
  rewrite (map_ext (fun x => fill fzero (Num x)) (fun x => Num (nan_to_zero x))).
  - rewrite <- map_map. destruct (map nan_to_zero xs) as [|x rest];
      [reflexivity|]. cbn [map fsum]. apply fold_py_add_numeric.
  - intros x. unfold fill, nan_to_zero. simpl. now destruct (isnan x).
Qed.

(** The polygon block's sum of a column that is there: every cell is read
    as a number, what is no number or is missing counts as zero. *)
Lemma coerced_sum_present (pts : frame point) (name : string) (s : list cell) :
  get pts name = Some s ->
  coerced_sum pts name
  = Ok (Num (fsum (map (fun c => nan_to_zero (to_numeric_coerce c)) s))).
Proof.
  intros Hget. unfold coerced_sum. rewrite Hget. cbn.
  rewrite map_map.
  rewrite (map_ext (fun c => fill fzero (Num (to_numeric_coerce c)))
             (fun c => Num (nan_to_zero (to_numeric_coerce c)))).
  - rewrite <- (map_map (fun c => nan_to_zero (to_numeric_coerce c)) Num).
    rewrite series_sum_numeric. f_equal. f_equal. f_equal.
    rewrite map_map. apply map_ext. intros c. unfold nan_to_zero.
    destruct (to_numeric_coerce c); reflexivity.
  - intros c. unfold fill, nan_to_zero. simpl.
    now destruct (isnan (to_numeric_coerce c)).
Qed.

(** The polygon block's sum of a column that is not there. *)
Lemma coerced_sum_absent (pts : frame point) (name : string) :
  get pts name = None -> coerced_sum pts name = Raise AttributeError.
Proof. intros Hget. unfold coerced_sum. now rewrite Hget. Qed.

(** The SE block's sum of a column that is not there, and of a column of
    numbers. *)
Lemma plain_sum_absent (pts : frame point) (name : string) :
  get pts name = None -> plain_sum pts name = Ok (Num fzero).
Proof. intros Hget. unfold plain_sum. now rewrite Hget. Qed.

Lemma plain_sum_numeric (pts : frame point) (name : string) (xs : list f64) :
  get pts name = Some (map Num xs) ->
  plain_sum pts name = Ok (Num (fsum (map nan_to_zero xs))).
Proof.
  intros Hget. unfold plain_sum. rewrite Hget. apply series_sum_numeric.
Qed.

(** ** LOAD CONCESSION POINTS: the table it returns *)

Lemma position_not_In name cols : ~ In name cols -> position name cols = None.
Proof.
  induction cols as [|c cols IH]; simpl; [reflexivity|].
  intros Hnot. destruct (String.eqb c name) eqn:E.
  - apply String.eqb_eq in E. exfalso. apply Hnot. now left.
  - rewrite IH; [reflexivity|]. intros Hin. apply Hnot. now right.
Qed.

Lemma position_bound name cols i :
  position name cols = Some i -> (i < length cols)%nat.
Proof.
  revert i. induction cols as [|c cols IH]; simpl; [discriminate|].
  intros i. destruct (String.eqb c name).
  - intros [= <-]. apply Nat.lt_0_succ.
  - destruct (position name cols) as [j|]; [|discriminate].
    intros [= <-]. apply -> Nat.succ_lt_mono. now apply IH.
Qed.

Lemma load_points_value (df : frame unit) (lat lon : nat) :
  position "LAT" (columns df) = Some lat ->
  position "LON" (columns df) = Some lon ->
  load_points df
  = Ok (mkFrame (columns df)
          (map (loaded_row lat lon)
             (List.filter (has_coordinates lat lon) (rows df)))).
Proof.
  intros Plat Plon.
  assert (Hne : lat <> lon).
  { intros ->. pose proof (position_inj _ _ _ _ Plat Plon). discriminate. }
  unfold load_points, coerce_column, dropna, with_points, column_index.
  rewrite Plat. cbn. rewrite Plon. cbn. rewrite Plat, Plon. cbn.
  rewrite Plon, Plat. cbn.
  do 2 f_equal. rewrite map_map, filter_map_commute, map_map.
  erewrite List.filter_ext; [reflexivity|].
  intros r. cbv beta.
  rewrite <- (has_coordinates_loaded lat lon r Hne). reflexivity.
Qed.

(** X1: without a LAT column, or without a LON column, [load_points]
    raises KeyError. *)
Theorem load_points_missing_column (df : frame unit) :
  ~ In "LAT" (columns df) \/ ~ In "LON" (columns df) ->
  load_points df = Raise KeyError.
Proof.
  intros Hmiss. unfold load_points, coerce_column, column_index.
  destruct (position "LAT" (columns df)) as [lat|] eqn:Plat; [|reflexivity].
  cbn. destruct Hmiss as [Hlat|Hlon].
  - rewrite (position_not_In _ _ Hlat) in Plat. discriminate.
  - now rewrite (position_not_In _ _ Hlon).
Qed.

(** X2: every row [load_points] returns has a point whose x is the number
    in its LON cell and whose y is the number in its LAT cell, and neither
    is NaN. *)
Theorem load_points_geometry (df : frame unit) :
  In "LAT" (columns df) -> In "LON" (columns df) ->
  exists out lat lon,
    load_points df = Ok out /\
    position "LAT" (columns out) = Some lat /\
    position "LON" (columns out) = Some lon /\
    forall r, In r (rows out) ->
      cell_at lon r = Num (px (geometry r)) /\
      cell_at lat r = Num (py (geometry r)) /\
      isnan (px (geometry r)) = false /\
      isnan (py (geometry r)) = false.
Proof.
  intros Hlat Hlon.
  destruct (position_In _ _ Hlat) as [lat Plat].
  destruct (position_In _ _ Hlon) as [lon Plon].
  assert (Hne : lat <> lon).
  { intros ->. pose proof (position_inj _ _ _ _ Plat Plon). discriminate. }
  eexists _, lat, lon. split; [exact (load_points_value df lat lon Plat Plon)|].
  cbn [columns rows]. split; [assumption|]. split; [assumption|].
  intros r' Hr'. apply in_map_iff in Hr'. destruct Hr' as (r & <- & Hr).
  apply filter_In in Hr. destruct Hr as [_ Hk].
  rewrite loaded_row_geometry by assumption. cbn [px py].
  unfold has_coordinates in Hk. apply andb_true_iff in Hk.
  destruct Hk as [H1 H2]. apply negb_true_iff in H1, H2.
  assert (Hclon : cell_at lon (loaded_row lat lon r)
                   = Num (to_numeric_coerce (cell_at lon r))).
  { change (cell_at lon
              (map_cell lon (fun c => Num (to_numeric_coerce c))
                 (map_cell lat (fun c => Num (to_numeric_coerce c)) r))
            = Num (to_numeric_coerce (cell_at lon r))).
    rewrite cell_at_coerced.
    now rewrite (cell_at_map_cell_other _ lat lon) by assumption. }
  assert (Hclat : cell_at lat (loaded_row lat lon r)
                   = Num (to_numeric_coerce (cell_at lat r))).
  { change (cell_at lat
              (map_cell lon (fun c => Num (to_numeric_coerce c))
                 (map_cell lat (fun c => Num (to_numeric_coerce c)) r))
            = Num (to_numeric_coerce (cell_at lat r))).
    rewrite (cell_at_map_cell_other _ lon lat) by congruence.
    apply cell_at_coerced. }
  repeat split; assumption.
Qed.

(** X3: [load_points] leaves every column other than LAT, LON and one
    named geometry as the CSV has it: in the returned table such a column
    holds the cells of the surviving CSV rows, uncoerced and in order. *)
Theorem load_points_other_columns (df : frame unit) (name : string) (j : nat) :
  In "LAT" (columns df) -> In "LON" (columns df) ->
  position name (columns df) = Some j ->
  name <> "LAT" -> name <> "LON" -> name <> "geometry" ->
  exists out lat lon,
    load_points df = Ok out /\
    position "LAT" (columns df) = Some lat /\
    position "LON" (columns df) = Some lon /\
    getitem out name
    = Ok (map (cell_at j) (List.filter (has_coordinates lat lon) (rows df))).
Proof.
  intros Hlat Hlon Pj Hn1 Hn2 _.
  destruct (position_In _ _ Hlat) as [lat Plat].
  destruct (position_In _ _ Hlon) as [lon Plon].
  eexists _, lat, lon. split; [exact (load_points_value df lat lon Plat Plon)|].
  split; [assumption|]. split; [assumption|].
  unfold getitem, column_index. cbn [columns rows]. rewrite Pj. cbn.
  f_equal. rewrite map_map. apply map_ext. intros r.
  unfold loaded_row.
  change (cell_at j
            (map_cell lon (fun c => Num (to_numeric_coerce c))
               (map_cell lat (fun c => Num (to_numeric_coerce c)) r))
          = cell_at j r).
  rewrite cell_at_map_cell_other, cell_at_map_cell_other; [reflexivity| |].
  - intros ->. apply Hn1. symmetry. eapply position_inj; eassumption.
  - intros ->. apply Hn2. symmetry. eapply position_inj; eassumption.
Qed.

(** ** SAFE SPATIAL JOIN: the table it returns *)

Lemma filter_all_in {A} (f : A -> bool) (l : list A) :
  (forall x, In x l -> f x = true) -> List.filter f l = l.
Proof.
  induction l as [|x l IH]; intros Hf; simpl; [reflexivity|].
  rewrite Hf by now left. f_equal. apply IH. intros y Hy. apply Hf. now right.
Qed.

Lemma map_const_repeat {A B} (c : B) (l : list A) :
  map (fun _ => c) l = repeat c (length l).
Proof. induction l as [|x l IH]; simpl; [reflexivity|now rewrite IH]. Qed.

Lemma position_app name cols rest i :
  position name cols = Some i -> position name (cols ++ rest) = Some i.
Proof.
  revert i. induction cols as [|c cols IH]; simpl; [discriminate|].
  intros i. destruct (String.eqb c name); [trivial|].
  destruct (position name cols) as [j|]; [|discriminate].
  intros [= <-]. now rewrite (IH j eq_refl).
Qed.

(** The pairs found against the stripped table are the pairs found
    against the table itself, with the polygon rows stripped. *)
Lemma intersecting_pairs_stripped points (polygons : frame geom) cols' :
  intersecting_pairs points
    (mkFrame cols' (map (stripped_row (columns polygons)) (rows polygons)))
  = map (fun pq => (fst pq, stripped_row (columns polygons) (snd pq)))
      (intersecting_pairs points polygons).
Proof.
  unfold intersecting_pairs. cbn [rows].
  induction (rows points) as [|p ps IH]; simpl; [reflexivity|].
  rewrite map_app, IH. f_equal.
  rewrite filter_map_commute, !map_map. reflexivity.
Qed.

Lemma intersecting_pairs_fst points (polygons : frame geom) :
  map fst (intersecting_pairs points polygons)
  = flat_map
      (fun p => repeat p
         (length (List.filter
                    (fun q => intersects (geometry p) (geometry q))
                    (rows polygons))))
      (rows points).
Proof.
  unfold intersecting_pairs.
  induction (rows points) as [|p ps IH]; simpl; [reflexivity|].
  rewrite map_app, IH. f_equal.
  rewrite map_map. cbn [fst]. apply map_const_repeat.
Qed.

Lemma safe_sjoin_value points polygons :
  well_formed polygons ->
  existsb is_reserved (columns points) = false ->
  safe_sjoin points polygons
  = Ok (mkFrame
          (map (suffixed "_left"
                  (List.filter (fun c => negb (startswith "index_" c))
                     (columns polygons)))
               (columns points)
             ++ "index_right"
             :: map (suffixed "_right" (columns points))
                  (List.filter (fun c => negb (startswith "index_" c))
                     (columns polygons)))
          (map (fun pq => join_row
                            (fst pq, stripped_row (columns polygons) (snd pq)))
             (intersecting_pairs points polygons))).
Proof.
  intros Hwf Hpts. rewrite safe_sjoin_unfold by assumption.
  unfold sjoin. cbn [columns].
  rewrite existsb_app, Hpts, no_reserved_after_strip. cbn [orb].
  rewrite intersecting_pairs_stripped, map_map. reflexivity.
Qed.

(** X4: a well-formed polygon table none of whose columns starts with
    [index_] goes through the clean-up loop unchanged, so that
    [safe_sjoin] is the library join on it. *)
Theorem strip_index_columns_nothing_to_strip
    (points : frame point) (polygons : frame geom) :
  well_formed polygons ->
  (forall c, In c (columns polygons) -> startswith "index_" c = false) ->
  strip_index_columns polygons = Ok polygons /\
  safe_sjoin points polygons = sjoin points polygons.
Proof.
  intros Hwf Hno.
  assert (Hstrip : strip_index_columns polygons = Ok polygons).
  { rewrite strip_index_columns_spec by assumption.
    destruct Hwf as [_ Hw]. destruct polygons as [cols rs]. cbn in *.
    f_equal. f_equal.
    - apply filter_all_in. intros c Hc. now rewrite (Hno c Hc).
    - rewrite <- (map_id rs) at 2. apply map_ext_in. intros r Hr.
      rewrite List.Forall_forall in Hw. specialize (Hw r Hr).
      destruct r as [l cs g]. unfold stripped_row. cbn in *. f_equal.
      rewrite (map_ext_in _ (fun _ => true)).
      + now apply keep_where_all.
      + intros c Hc. now rewrite (Hno c Hc). }
  split; [assumption|]. unfold safe_sjoin. now rewrite Hstrip.
Qed.

(** X5: against a well-formed polygon table [safe_sjoin] returns exactly
    when the point table has no column named index_left or index_right;
    when it has one, the error is ValueError, whatever the polygons. *)
Theorem safe_sjoin_succeeds_iff (points : frame point) (polygons : frame geom) :
  well_formed polygons ->
  (succeeds (safe_sjoin points polygons)
   <-> existsb is_reserved (columns points) = false) /\
  (existsb is_reserved (columns points) = true ->
   safe_sjoin points polygons = Raise ValueError).
Proof.
  intros Hwf.
  assert (Hbad : existsb is_reserved (columns points) = true ->
                 safe_sjoin points polygons = Raise ValueError).
  { intros Hres. rewrite safe_sjoin_unfold by assumption.
    unfold sjoin. cbn [columns]. now rewrite existsb_app, Hres. }
  split; [|assumption]. split.
  - intros [out Hout].
    destruct (existsb is_reserved (columns points)) eqn:E; [|reflexivity].
    rewrite Hbad in Hout by reflexivity. discriminate.
  - intros Hres. eexists. now apply safe_sjoin_value.
Qed.

(** X6: the join returns one row per (point, polygon) pair that
    intersects: a point appears, under its label and with its geometry, as
    many times in a row as polygons of the table it intersects, and the
    points keep their order. *)
Theorem safe_sjoin_one_row_per_pair
    (points : frame point) (polygons : frame geom) :
  well_formed polygons ->
  existsb is_reserved (columns points) = false ->
  exists out,
    safe_sjoin points polygons = Ok out /\
    map (fun j => (label j, geometry j)) (rows out)
    = flat_map
        (fun p => repeat (label p, geometry p)
           (length (List.filter
                      (fun q => intersects (geometry p) (geometry q))
                      (rows polygons))))
        (rows points).
Proof.
  intros Hwf Hpts. eexists. split; [now apply safe_sjoin_value|].
  cbn [rows]. rewrite map_map. cbn [join_row label geometry fst].
  rewrite <- (map_map fst (fun p => (label p, geometry p))).
  rewrite intersecting_pairs_fst.
  induction (rows points) as [|p ps IH]; simpl; [reflexivity|].
  rewrite map_app, IH. f_equal.
  induction (length _) as [|n IHn]; simpl; [reflexivity|now rewrite IHn].
Qed.

(** X7: when no point column bears the name of a polygon column, a
    column of the point table is found under its own name in the joined
    table and holds, pair by pair, the cell of the pair's point. *)
Theorem safe_sjoin_point_column
    (points : frame point) (polygons : frame geom) (name : string) (i : nat) :
  well_formed polygons ->
  Forall (fun r => length (cells r) = length (columns points)) (rows points) ->
  existsb is_reserved (columns points) = false ->
  (forall c, In c (columns points) -> ~ In c (columns polygons)) ->
  position name (columns points) = Some i ->
  exists out,
    safe_sjoin points polygons = Ok out /\
    getitem out name
    = Ok (map (fun pq => cell_at i (fst pq))
            (intersecting_pairs points polygons)).
Proof.
  intros Hwf Hw Hpts Hdisj Hpos.
  eexists. split; [now apply safe_sjoin_value|].
  unfold getitem, column_index. cbn [columns rows].
  rewrite (map_ext_in _ (fun c => c)), map_id.
  - rewrite (position_app _ _ _ _ Hpos). cbn. f_equal.
    rewrite map_map. apply map_ext_in. intros [p q] Hpq. cbn [fst snd].
    apply intersecting_pairs_In in Hpq. destruct Hpq as (Hp & _ & _).
    rewrite List.Forall_forall in Hw. specialize (Hw p Hp).
    unfold cell_at, join_row. cbn [cells fst snd].
    apply app_nth1. rewrite Hw. now apply position_bound in Hpos.
  - intros c Hc. unfold suffixed.
    destruct (mem_string c _) eqn:E; [|reflexivity].
    apply mem_string_In, filter_In in E. destruct E as [E _].
    now apply Hdisj in Hc.
Qed.

(** X8: a point the draw tool selects for a geometry is also joined to
    every polygon row that has this geometry: within implies
    intersects. *)
Theorem within_selection_is_joined
    (points : frame point) (polygons : frame geom) (p : row point)
    (q : row geom) :
  well_formed polygons ->
  existsb is_reserved (columns points) = false ->
  In q (rows polygons) ->
  In p (rows (pts_poly points (geometry q))) ->
  exists out,
    safe_sjoin points polygons = Ok out /\
    In (join_row (p, stripped_row (columns polygons) q)) (rows out).
Proof.
  intros Hwf Hpts Hq Hp. eexists. split; [now apply safe_sjoin_value|].
  cbn [rows]. apply in_map_iff. exists (p, q). split; [reflexivity|].
  unfold pts_poly in Hp. cbn [rows] in Hp. apply filter_In in Hp.
  destruct Hp as [Hp Hw]. apply intersecting_pairs_In.
  split; [assumption|]. split; [assumption|].
  apply intersects_spec. apply within_spec in Hw. congruence.
Qed.

(** ** SIDEBAR: sorting, and what a choice selects *)

Lemma insert_sorted_perm x l l' :
  insert_sorted x l = Ok l' -> Permutation (x :: l) l'.
Proof.
  revert l'. induction l as [|y l IH]; intros l'; cbn.
  - intros [= <-]. reflexivity.
  - destruct (py_lt y x) as [[|]|e]; cbn; [| |discriminate].
    + destruct (insert_sorted x l) as [r|e]; cbn; [|discriminate].
      intros [= <-]. rewrite perm_swap. apply perm_skip. now apply IH.
    + intros [= <-]. reflexivity.
Qed.

Lemma sorted_perm l l' : sorted l = Ok l' -> Permutation l l'.
Proof.
  revert l'. induction l as [|x l IH]; intros l'; cbn.
  - intros [= <-]. reflexivity.
  - destruct (sorted l) as [s|e]; cbn; [|discriminate].
    intros H. apply insert_sorted_perm in H. rewrite <- H.
    apply perm_skip. now apply IH.
Qed.

Lemma insert_sorted_error x l e : insert_sorted x l = Raise e -> e = TypeError.
Proof.
  induction l as [|y l IH]; cbn; [discriminate|].
  destruct x as [a|s], y as [b|t]; cbn; try (now intros [= <-]).
  - destruct (fltb b a); [|discriminate].
    destruct (insert_sorted (Num a) l); cbn; [discriminate|].
    intros [= <-]. now apply IH.
  - destruct (string_ltb t s); [|discriminate].
    destruct (insert_sorted (Text s) l); cbn; [discriminate|].
    intros [= <-]. now apply IH.
Qed.

Lemma sorted_error l e : sorted l = Raise e -> e = TypeError.
Proof.
  induction l as [|x l IH]; cbn; [discriminate|].
  destruct (sorted l) as [s|e']; cbn.
  - apply insert_sorted_error.
  - intros [= <-]. now apply IH.
Qed.

Lemma insert_sorted_num x l :
  is_num x = true -> Forall (fun c => is_num c = true) l ->
  exists l', insert_sorted x l = Ok l'.
Proof.
  intros Hx. induction 1 as [|y l Hy _ IH]; cbn; [eauto|].
  destruct x as [a|s]; [|discriminate]. destruct y as [b|t]; [|discriminate].
  cbn. destruct (fltb b a); [|eauto].
  destruct IH as [r ->]. cbn. eauto.
Qed.

Lemma sorted_num l :
  Forall (fun c => is_num c = true) l -> exists l', sorted l = Ok l'.
Proof.
  induction 1 as [|x l Hx Hl IH]; cbn; [eauto|].
  destruct IH as [s Hs]. rewrite Hs. cbn.
  apply insert_sorted_num; [assumption|].
  eapply Permutation_Forall; [exact (sorted_perm _ _ Hs)|assumption].
Qed.

Lemma sorted_homogeneous l l' :
  sorted l = Ok l' ->
  Forall (fun c => is_text c = true) l \/ Forall (fun c => is_num c = true) l.
Proof.
  revert l'. induction l as [|x l IH]; intros l'; cbn; [auto|].
  destruct (sorted l) as [s|e] eqn:Hs; cbn; [|discriminate].
  intros Hins. pose proof (sorted_perm _ _ Hs) as Hperm.
  destruct s as [|y s].
  - apply Permutation_sym, Permutation_nil in Hperm. subst l.
    destruct x; [right|left]; repeat constructor.
  - assert (Hy : In y l).
    { eapply Permutation_in; [symmetry; exact Hperm|now left]. }
    cbn in Hins.
    destruct (IH _ eq_refl) as [Ht|Hn].
    + left. constructor; [|assumption].
      rewrite List.Forall_forall in Ht. specialize (Ht y Hy).
      destruct y; [discriminate|]. destruct x; [discriminate|reflexivity].
    + right. constructor; [|assumption].
      rewrite List.Forall_forall in Hn. specialize (Hn y Hy).
      destruct y; [|discriminate]. destruct x; [reflexivity|discriminate].
Qed.

(** X9: [sorted] returns a rearrangement of its list, no value lost and
    none added, or raises TypeError; it raises nothing else. *)
Theorem sorted_rearranges (l : list cell) :
  (exists l', sorted l = Ok l' /\ Permutation l l') \/
  sorted l = Raise TypeError.
Proof.
  destruct (sorted l) as [l'|e] eqn:E.
  - left. exists l'. split; [reflexivity|]. now apply sorted_perm.
  - right. f_equal. now apply sorted_error in E.
Qed.

(** X10: [sorted] returns exactly on the lists that hold texts only or
    numbers only; a list with a text and a number in it, such as a column
    of names with one missing value, makes it raise TypeError. *)
Theorem sorted_succeeds_iff_homogeneous (l : list cell) :
  (succeeds (sorted l) <->
   Forall (fun c => is_text c = true) l \/ Forall (fun c => is_num c = true) l)
  /\
  (forall s x, In (Text s) l -> In (Num x) l -> sorted l = Raise TypeError).
Proof.
  assert (Hiff : succeeds (sorted l) <->
    Forall (fun c => is_text c = true) l \/ Forall (fun c => is_num c = true) l).
  { split.
    - intros [l' Hl']. eapply sorted_homogeneous. eassumption.
    - intros [Ht|Hn].
      + destruct (sorted_text l Ht) as (l' & Hl' & _). now exists l'.
      + now apply sorted_num. }
  split; [exact Hiff|].
  intros s x Hs Hx. destruct (sorted l) as [l'|e] eqn:E.
  - exfalso. apply sorted_homogeneous in E.
    rewrite !List.Forall_forall in E. destruct E as [Ht|Hn].
    + specialize (Ht _ Hx). discriminate.
    + specialize (Hn _ Hs). discriminate.
  - f_equal. now apply sorted_error in E.
Qed.

Lemma unique_covers l c :
  In c l -> exists c', In c' (unique l) /\ same_value c' c = true.
Proof.
  induction l as [|y l IH]; simpl; [intros []|].
  intros Hin. destruct (same_value y c) eqn:E.
  - exists y. split; [now left|assumption].
  - destruct Hin as [->|Hin].
    + rewrite same_value_refl in E. discriminate.
    + destruct (IH Hin) as (c' & Hc' & Hsame).
      destruct (same_value y c') eqn:E'.
      * exists y. split; [now left|].
        exfalso. clear - E E' Hsame. unfold same_value in *.
        destruct y as [[a| | |]|s], c' as [[b| | |]|t], c as [[d| | |]|u];
          cbn in *; try discriminate.
        -- rewrite orb_false_r in *. apply Qeq_bool_iff in E', Hsame.
           assert (Hq : Qeq_bool a d = true)
             by (apply Qeq_bool_iff; now rewrite E').
           congruence.
        -- rewrite orb_false_r in *. apply String.eqb_eq in E', Hsame.
           subst. now rewrite String.eqb_refl in E.
      * exists c'. split; [|assumption].
        right. apply filter_In. split; [assumption|now rewrite E'].
Qed.

Lemma getitem_inv {G} (df : frame G) name vs :
  getitem df name = Ok vs ->
  exists i, position name (columns df) = Some i /\
            vs = map (cell_at i) (rows df).
Proof.
  unfold getitem, column_index.
  destruct (position name (columns df)) as [i|]; cbn; [|discriminate].
  intros [= <-]. now exists i.
Qed.

(** X11: a column that holds a text and a number, such as a region
    column with a name and a missing value, makes the candidate list of
    its box raise TypeError. *)
Theorem options_mixed_column {G} (df : frame G) (name s : string)
    (x : f64) (vs : list cell) :
  getitem df name = Ok vs ->
  In (Text s) vs -> In (Num x) vs ->
  options name df = Raise TypeError.
Proof.
  intros Hget Hs Hx. unfold options. rewrite Hget. cbn.
  apply unique_text in Hs.
  destruct (unique_covers _ _ Hx) as (c & Hc & Hsame).
  destruct c as [y|t].
  - destruct (sorted (unique vs)) as [l'|e] eqn:E.
    + exfalso. apply sorted_homogeneous in E.
      rewrite !List.Forall_forall in E. destruct E as [Ht|Hn].
      * specialize (Ht _ Hc). discriminate.
      * specialize (Hn _ Hs). discriminate.
    + f_equal. now apply sorted_error in E.
  - unfold same_value in Hsame. cbn in Hsame. discriminate.
Qed.

(** X12: for a column of texts the candidate list of a box is the list of
    the distinct values of the column in strictly increasing lexical
    order. *)
Theorem options_sorted_distinct {G} (df : frame G) (name : string)
    (vs : list cell) :
  getitem df name = Ok vs ->
  Forall (fun c => is_text c = true) vs ->
  exists L,
    options name df = Ok (map Text L) /\
    StronglySorted (fun s t => string_ltb s t = true) L /\
    (forall s, In s L <-> In (Text s) vs).
Proof.
  intros Hget Htxt.
  assert (Hu : Forall (fun c => is_text c = true) (unique vs)).
  { rewrite List.Forall_forall in Htxt |- *. intros c Hc.
    apply Htxt. now apply unique_incl. }
  destruct (sorted_text (unique vs) Hu) as (l' & Hsorted & Hperm & Hs).
  destruct (texts_of l') as [L ->].
  { eapply Permutation_Forall; eassumption. }
  exists L. split; [|split].
  - unfold options. rewrite Hget. cbn. exact Hsorted.
  - apply strictly_sorted_texts; [assumption|].
    eapply Permutation_NoDup; [exact Hperm|apply unique_NoDup].
  - intros s. split.
    + intros Hin. apply unique_incl.
      eapply Permutation_in; [symmetry; exact Hperm|now apply in_map].
    + intros Hin. apply unique_text in Hin.
      eapply Permutation_in in Hin; [|exact Hperm].
      apply in_map_iff in Hin. destruct Hin as (t & [= ->] & Ht). assumption.
Qed.

Lemma filter_none {A} (f : A -> bool) (l : list A) :
  (forall x, f x = false) -> List.filter f l = [].
Proof.
  intros Hf. induction l as [|x l IH]; simpl; [reflexivity|].
  now rewrite Hf.
Qed.

Lemma filter_none_in {A} (f : A -> bool) (l : list A) :
  (forall x, In x l -> f x = false) -> List.filter f l = [].
Proof.
  induction l as [|x l IH]; intros Hf; simpl; [reflexivity|].
  rewrite Hf by now left. apply IH. intros y Hy. apply Hf. now right.
Qed.

Lemma cell_eqb_nan c : cell_eqb c (Num NaN) = false.
Proof. destruct c as [[q| | |]|s]; reflexivity. Qed.

(** X13: choosing a text that occurs in a column selects a subset with at
    least one row, all of them rows of the table, under the same header;
    choosing NaN selects no row at all, NaN being equal to nothing. *)
Theorem select_eq_offered_value {G} (df : frame G) (name s : string)
    (vs : list cell) :
  getitem df name = Ok vs ->
  In (Text s) vs ->
  (exists sub,
     select_eq name (Text s) df = Ok sub /\
     rows sub <> [] /\
     columns sub = columns df /\
     (forall r, In r (rows sub) -> In r (rows df))) /\
  (exists none,
     select_eq name (Num NaN) df = Ok none /\ rows none = []).
Proof.
  intros Hget Hin. apply getitem_inv in Hget.
  destruct Hget as (i & Hpos & ->).
  unfold select_eq, column_index. rewrite Hpos. cbn. split.
  - eexists. split; [reflexivity|]. cbn [rows columns].
    split; [|split; [reflexivity|]].
    + apply in_map_iff in Hin. destruct Hin as (r & Hr & Hin).
      intros Hnil.
      assert (Hmem : In r (List.filter
                (fun r => cell_eqb (cell_at i r) (Text s)) (rows df))).
      { apply filter_In. split; [assumption|]. now apply cell_eqb_text. }
      rewrite Hnil in Hmem. destruct Hmem.
    + intros r Hr. apply filter_In in Hr. now destruct Hr.
  - eexists. split; [reflexivity|]. cbn [rows].
    apply filter_none. intros r. apply cell_eqb_nan.
Qed.

(** X14: with the three columns there, the commune subset is the table
    restricted, in one pass and in order, to the rows whose region, cercle
    and commune cells equal the three choices. *)
Theorem gdf_commune_filters {G} (gdf : frame G) (region cercle commune : cell)
    (a b c : nat) :
  position "region" (columns gdf) = Some a ->
  position "cercle" (columns gdf) = Some b ->
  position "commune" (columns gdf) = Some c ->
  gdf_commune gdf region cercle commune
  = Ok (mkFrame (columns gdf)
          (List.filter
             (fun r => cell_eqb (cell_at a r) region
                       && cell_eqb (cell_at b r) cercle
                       && cell_eqb (cell_at c r) commune)
             (rows gdf))).
Proof.
  intros Ha Hb Hc. unfold gdf_commune, select_eq, column_index.
  rewrite Ha. cbn. rewrite Hb. cbn. rewrite Hc. cbn.
  rewrite !filter_filter. do 2 f_equal.
  apply List.filter_ext. intros r. now rewrite andb_assoc.
Qed.

(** X15: on a commune subset that has rows and whose idse_new cells are
    texts, every entry of the SE box selects a subset that has rows. *)
Theorem gdf_idse_offered_entry {G} (sub : frame G) (vs l : list cell)
    (v : cell) :
  getitem sub "idse_new" = Ok vs ->
  Forall (fun c => is_text c = true) vs ->
  rows sub <> [] ->
  idse_list sub = Ok l ->
  In v l ->
  exists chosen, gdf_idse sub v = Ok chosen /\ rows chosen <> [].
Proof.
  intros Hget Htxt Hrows Hlist Hv.
  unfold gdf_idse. destruct (cell_eqb v no_filter) eqn:E; [eauto|].
  unfold idse_list, options in Hlist. rewrite Hget in Hlist. cbn in Hlist.
  destruct (sorted (unique vs)) as [opts|e] eqn:Hs; cbn in Hlist;
    [|discriminate].
  injection Hlist as <-. destruct Hv as [<-|Hv].
  { cbn in E. discriminate. }
  apply sorted_perm in Hs.
  eapply Permutation_in in Hv; [|symmetry; exact Hs].
  apply unique_incl in Hv.
  rewrite List.Forall_forall in Htxt. pose proof (Htxt v Hv) as Hvt.
  destruct v as [x|id]; [discriminate|].
  apply getitem_inv in Hget. destruct Hget as (i & Hpos & ->).
  unfold select_eq, column_index. rewrite Hpos. cbn.
  eexists. split; [reflexivity|]. cbn [rows].
  apply in_map_iff in Hv. destruct Hv as (r & Hr & Hin).
  intros Hnil.
  assert (Hmem : In r (List.filter
            (fun r => cell_eqb (cell_at i r) (Text id)) (rows sub))).
  { apply filter_In. split; [assumption|]. now apply cell_eqb_text. }
  rewrite Hnil in Hmem. destruct Hmem.
Qed.

(** ** LOAD SE POLYGONS: the table it returns *)

Lemma setdefault_columns {G} (v : cell) (gdf : frame G) (col c : string) :
  In c (columns (setdefault_column v gdf col))
  <-> In c (columns gdf) \/ c = col.
Proof.
  unfold setdefault_column.
  destruct (mem_string col (columns gdf)) eqn:E; cbn [columns].
  - apply mem_string_In in E. split; [auto|]. intros [H| ->]; assumption.
  - rewrite in_app_iff. simpl. split.
    + intros [H|[<-|[]]]; auto.
    + intros [H| ->]; auto.
Qed.

Lemma fold_setdefault_columns {G} (v : cell) (names : list string)
    (gdf : frame G) (c : string) :
  In c (columns (fold_left (setdefault_column v) names gdf))
  <-> In c (columns gdf) \/ In c names.
Proof.
  revert gdf. induction names as [|n names IH]; intros gdf; simpl.
  - split; [auto|]. intros [H|[]]. assumption.
  - rewrite IH, setdefault_columns. split.
    + intros [[H|H]|H]; auto.
    + intros [H|[H|H]]; auto.
Qed.

Lemma setdefault_rows {G} (v : cell) (gdf : frame G) (col : string) :
  map (fun r => (label r, geometry r)) (rows (setdefault_column v gdf col))
  = map (fun r => (label r, geometry r)) (rows gdf).
Proof.
  unfold setdefault_column. destruct (mem_string col (columns gdf));
    [reflexivity|]. cbn [rows]. now rewrite map_map.
Qed.

Lemma fold_setdefault_rows {G} (v : cell) (names : list string) (gdf : frame G) :
  map (fun r => (label r, geometry r))
    (rows (fold_left (setdefault_column v) names gdf))
  = map (fun r => (label r, geometry r)) (rows gdf).
Proof.
  revert gdf. induction names as [|n names IH]; intros gdf; simpl;
    [reflexivity|]. now rewrite IH, setdefault_rows.
Qed.

Lemma setdefault_fit {G} (v : cell) (gdf : frame G) (col : string) :
  rows_fit gdf -> rows_fit (setdefault_column v gdf col).
Proof.
  unfold rows_fit, setdefault_column. intros Hfit.
  destruct (mem_string col (columns gdf)); [assumption|]. cbn [rows columns].
  apply List.Forall_forall. intros r' Hr'. apply in_map_iff in Hr'.
  destruct Hr' as (r & <- & Hr). rewrite List.Forall_forall in Hfit.
  cbn [cells]. rewrite !length_app, (Hfit r Hr). reflexivity.
Qed.

Lemma setdefault_holds_new {G} (v : cell) (gdf : frame G) (col : string) :
  rows_fit gdf -> ~ In col (columns gdf) ->
  column_holds col v (setdefault_column v gdf col).
Proof.
  unfold rows_fit, setdefault_column. intros Hfit Hnew.
  destruct (mem_string col (columns gdf)) eqn:E.
  { apply mem_string_In in E. contradiction. }
  exists (length (columns gdf)). cbn [columns rows]. split.
  - clear - Hnew. induction (columns gdf) as [|c cols IH]; simpl.
    + now rewrite String.eqb_refl.
    + destruct (String.eqb c col) eqn:Ec.
      * apply String.eqb_eq in Ec. exfalso. apply Hnew. now left.
      * rewrite IH; [reflexivity|]. intros H. apply Hnew. now right.
  - intros r' Hr'. apply in_map_iff in Hr'. destruct Hr' as (r & <- & Hr).
    rewrite List.Forall_forall in Hfit. unfold cell_at. cbn [cells].
    rewrite <- (Hfit r Hr). apply nth_middle.
Qed.

Lemma setdefault_holds_keep {G} (v v' : cell) (gdf : frame G)
    (name col : string) :
  rows_fit gdf -> column_holds name v gdf ->
  column_holds name v (setdefault_column v' gdf col).
Proof.
  unfold rows_fit, setdefault_column. intros Hfit (i & Hpos & Hall).
  destruct (mem_string col (columns gdf)); [now exists i|].
  exists i. cbn [columns rows]. split; [now apply position_app|].
  intros r' Hr'. apply in_map_iff in Hr'. destruct Hr' as (r & <- & Hr).
  rewrite List.Forall_forall in Hfit. unfold cell_at. cbn [cells].
  rewrite app_nth1.
  - now apply Hall.
  - rewrite (Hfit r Hr). now apply position_bound in Hpos.
Qed.

Lemma fold_setdefault_fit {G} (v : cell) (names : list string) (gdf : frame G) :
  rows_fit gdf -> rows_fit (fold_left (setdefault_column v) names gdf).
Proof.
  revert gdf. induction names as [|n names IH]; intros gdf Hfit; simpl;
    [assumption|]. apply IH. now apply setdefault_fit.
Qed.

Lemma fold_setdefault_holds_keep {G} (v v' : cell) (names : list string)
    (gdf : frame G) (name : string) :
  rows_fit gdf -> column_holds name v gdf ->
  column_holds name v (fold_left (setdefault_column v') names gdf).
Proof.
  revert gdf. induction names as [|n names IH]; intros gdf Hfit Hh; simpl;
    [assumption|].
  apply IH; [now apply setdefault_fit|now apply setdefault_holds_keep].
Qed.

Lemma fold_setdefault_holds_new {G} (v : cell) (names : list string)
    (gdf : frame G) (name : string) :
  rows_fit gdf -> In name names -> ~ In name (columns gdf) ->
  column_holds name v (fold_left (setdefault_column v) names gdf).
Proof.
  revert gdf. induction names as [|n names IH]; intros gdf Hfit Hin Hnew;
    simpl; [destruct Hin|].
  destruct (String.eqb n name) eqn:E.
  - apply String.eqb_eq in E. subst n.
    apply fold_setdefault_holds_keep; [now apply setdefault_fit|].
    now apply setdefault_holds_new.
  - apply String.eqb_neq in E. destruct Hin as [Hin|Hin]; [contradiction|].
    apply IH; [now apply setdefault_fit|assumption|].
    rewrite setdefault_columns. intros [H|H]; [contradiction|congruence].
Qed.

Lemma setdefault_NoDup {G} (v : cell) (gdf : frame G) (col : string) :
  NoDup (columns gdf) -> NoDup (columns (setdefault_column v gdf col)).
Proof.
  intros Hnd. unfold setdefault_column.
  destruct (mem_string col (columns gdf)) eqn:E; [assumption|].
  cbn [columns]. apply NoDup_app. split; [assumption|].
  split; [|apply NoDup_singleton].
  intros x Hx Hcol. apply list_elem_of_In in Hx, Hcol.
  destruct Hcol as [<-|[]].
  apply mem_string_In in Hx. congruence.
Qed.

Lemma fold_setdefault_NoDup {G} (v : cell) (names : list string)
    (gdf : frame G) :
  NoDup (columns gdf) ->
  NoDup (columns (fold_left (setdefault_column v) names gdf)).
Proof.
  revert gdf. induction names as [|n names IH]; intros gdf Hnd; simpl;
    [assumption|]. apply IH. now apply setdefault_NoDup.
Qed.

(** X16: when the lower-cased, stripped and renamed column names of the
    file are pairwise distinct, so are the column names of the table
    [load_se_data] returns; the columns region, cercle, commune,
    idse_new, pop_se and pop_se_ct are among them, so the commune subset,
    the SE subset and the chart's table are all computed without
    KeyError. *)
Theorem load_se_data_columns (gdf : frame geom) (region cercle commune v : cell) :
  NoDup (map renamed
           (map (fun c => str_strip (str_lower c)) (columns gdf))) ->
  NoDup (columns (load_se_data gdf)) /\
  (forall name,
     In name ["region"; "cercle"; "commune"; "idse_new"; "pop_se"; "pop_se_ct"] ->
     In name (columns (load_se_data gdf))) /\
  exists sub chosen long,
    gdf_commune (load_se_data gdf) region cercle commune = Ok sub /\
    gdf_idse sub v = Ok chosen /\
    df_long chosen = Ok long.
Proof.
  intros Hnd. split.
  { unfold load_se_data. cbn [columns].
    apply fold_setdefault_NoDup, fold_setdefault_NoDup. exact Hnd. }
  clear Hnd.
  assert (Hcols : forall name,
     In name ["region"; "cercle"; "commune"; "idse_new"; "pop_se"; "pop_se_ct"] ->
     In name (columns (load_se_data gdf))).
  { intros name Hin. unfold load_se_data. cbn [columns].
    rewrite !fold_setdefault_columns. simpl in Hin |- *.
    repeat (destruct Hin as [<-|Hin]; [auto 10|]). destruct Hin. }
  split; [exact Hcols|].
  remember (load_se_data gdf) as loaded eqn:Hloaded. clear Hloaded.
  destruct (position_In "region" (columns loaded)) as [a Ha];
    [apply Hcols; simpl; auto|].
  destruct (position_In "cercle" (columns loaded)) as [b Hb];
    [apply Hcols; simpl; auto|].
  destruct (position_In "commune" (columns loaded)) as [c Hc];
    [apply Hcols; simpl; auto|].
  destruct (position_In "idse_new" (columns loaded)) as [i Hi];
    [apply Hcols; simpl; auto 10|].
  destruct (position_In "pop_se" (columns loaded)) as [j Hj];
    [apply Hcols; simpl; auto 10|].
  destruct (position_In "pop_se_ct" (columns loaded)) as [k Hk];
    [apply Hcols; simpl; auto 10|].
  assert (Hsub : exists sub,
            gdf_commune loaded region cercle commune = Ok sub /\
            columns sub = columns loaded).
  { unfold gdf_commune, select_eq, column_index.
    rewrite Ha. cbn. rewrite Hb. cbn. rewrite Hc. cbn.
    eexists. split; reflexivity. }
  destruct Hsub as (sub & Hsub & Hsc).
  assert (Hchosen : exists chosen,
            gdf_idse sub v = Ok chosen /\ columns chosen = columns loaded).
  { unfold gdf_idse, select_eq, column_index. rewrite Hsc, Hi. cbn.
    destruct (cell_eqb v no_filter); eexists; split;
      try reflexivity; assumption. }
  destruct Hchosen as (chosen & Hchosen & Hcc).
  exists sub, chosen. eexists. split; [assumption|]. split; [assumption|].
  unfold df_long, select_columns, column_index. rewrite Hcc.
  cbn. rewrite Hi, Hj, Hk. cbn. reflexivity.
Qed.

(** X17: [load_se_data] returns, in their order and under their labels,
    the reprojected geometries of the file that are valid and not empty,
    and only those. *)
Theorem load_se_data_rows_valid (gdf : frame geom) :
  map (fun r => (label r, geometry r)) (rows (load_se_data gdf))
  = List.filter (fun lg => is_valid (snd lg) && negb (is_empty (snd lg)))
      (map (fun r => (label r, to_crs (geometry r))) (rows gdf)) /\
  forall r, In r (rows (load_se_data gdf)) ->
    is_valid (geometry r) = true /\ is_empty (geometry r) = false.
Proof.
  split.
  - unfold load_se_data. cbn [rows columns].
    rewrite <- (filter_map_commute (fun r : row geom => (label r, geometry r))
                  (fun lg => is_valid (snd lg) && negb (is_empty (snd lg)))).
    rewrite !fold_setdefault_rows. cbn [rows]. now rewrite map_map.
  - intros r Hr. unfold load_se_data in Hr. cbn [rows] in Hr.
    apply filter_In in Hr. destruct Hr as [_ Hr].
    apply andb_true_iff in Hr. destruct Hr as [H1 H2].
    apply negb_true_iff in H2. auto.
Qed.

Lemma column_holds_filter {G} (name : string) (v : cell) (cols : list string)
    (rs : list (row G)) (f : row G -> bool) :
  column_holds name v (mkFrame cols rs) ->
  column_holds name v (mkFrame cols (List.filter f rs)).
Proof.
  intros (i & Hpos & Hall). exists i. split; [assumption|].
  cbn [rows] in *. intros r Hr. apply filter_In in Hr. apply Hall. now destruct Hr.
Qed.

(** X18: on a file whose rows are as wide as its header, the returned
    rows are as wide as the returned header, and an attribute the file
    does not have under its normalised and renamed column names is filled
    in for every returned row: the empty text for region, cercle, commune
    and idse_new, the number 0 for pop_se and pop_se_ct. *)
Theorem load_se_data_defaults (gdf : frame geom) (name : string) :
  rows_fit gdf ->
  ~ In name
      (map renamed (map (fun c => str_strip (str_lower c)) (columns gdf))) ->
  rows_fit (load_se_data gdf) /\
  (In name ["region"; "cercle"; "commune"; "idse_new"] ->
   column_holds name (Text "") (load_se_data gdf)) /\
  (In name ["pop_se"; "pop_se_ct"] ->
   column_holds name (Num fzero) (load_se_data gdf)).
Proof.
  intros Hfit Hnew.
  set (g0 := mkFrame
               (map renamed
                  (map (fun c => str_strip (str_lower c)) (columns gdf)))
               (map (fun r => mkRow (label r) (cells r) (to_crs (geometry r)))
                  (rows gdf))).
  assert (Hfit0 : rows_fit g0).
  { unfold rows_fit, g0 in *. cbn [rows columns].
    apply List.Forall_forall. intros r' Hr'. apply in_map_iff in Hr'.
    destruct Hr' as (r & <- & Hr). rewrite List.Forall_forall in Hfit.
    cbn [cells]. rewrite !length_map. now apply Hfit. }
  set (g1 := fold_left (setdefault_column (Text ""))
               ["region"; "cercle"; "commune"; "idse_new"] g0).
  assert (Hfit1 : rows_fit g1) by now apply fold_setdefault_fit.
  set (g2 := fold_left (setdefault_column (Num fzero))
               ["pop_se"; "pop_se_ct"] g1).
  assert (Hfit2 : rows_fit g2) by now apply fold_setdefault_fit.
  change (load_se_data gdf)
    with (mkFrame (columns g2)
            (List.filter
               (fun r => is_valid (geometry r) && negb (is_empty (geometry r)))
               (rows g2))).
  split; [|split].
  - unfold rows_fit in *. cbn [rows columns].
    apply List.Forall_forall. intros r Hr. apply filter_In in Hr.
    rewrite List.Forall_forall in Hfit2. apply Hfit2. now destruct Hr.
  - intros Hin. apply column_holds_filter.
    assert (H2 : column_holds name (Text "") g2).
    { apply fold_setdefault_holds_keep; [assumption|].
      now apply fold_setdefault_holds_new. }
    destruct g2. exact H2.
  - intros Hin. apply column_holds_filter.
    assert (H2 : column_holds name (Num fzero) g2).
    { apply fold_setdefault_holds_new; [assumption|assumption|].
      unfold g1. rewrite fold_setdefault_columns. intros [H|H].
      - contradiction.
      - simpl in Hin, H.
        destruct Hin as [<-|[<-|[]]];
          repeat (destruct H as [H|H]; [discriminate|]); destruct H. }
    destruct g2. exact H2.
Qed.

(** ** The population chart's table *)

Lemma range_index_cells n l : map cells (range_index n l) = l.
Proof.
  revert n. induction l as [|c l IH]; intros n; simpl; [reflexivity|].
  now rewrite IH.
Qed.

Lemma range_index_labels n l : map label (range_index n l) = seq n (length l).
Proof.
  revert n. induction l as [|c l IH]; intros n; simpl; [reflexivity|].
  now rewrite IH.
Qed.

(** X19: the chart's table has, for each row of the SE subset, a row with
    its idse_new, the text pop_se and its pop_se value, then, again for
    each row of the subset, a row with its idse_new, the text pop_se_ct
    and its pop_se_ct value: twice as many rows as the subset, numbered
    from 0. *)
Theorem df_long_rows {G} (gdf_idse : frame G) (i j k : nat) :
  position "idse_new" (columns gdf_idse) = Some i ->
  position "pop_se" (columns gdf_idse) = Some j ->
  position "pop_se_ct" (columns gdf_idse) = Some k ->
  exists long,
    df_long gdf_idse = Ok long /\
    columns long = ["idse_new"; "Type"; "Population"] /\
    map cells (rows long)
    = map (fun r => [cell_at i r; Text "pop_se"; cell_at j r]) (rows gdf_idse)
      ++ map (fun r => [cell_at i r; Text "pop_se_ct"; cell_at k r])
           (rows gdf_idse) /\
    map label (rows long) = seq 0 (2 * length (rows gdf_idse)).
Proof.
  intros Hi Hj Hk. unfold df_long, select_columns, column_index.
  cbn. rewrite Hi, Hj, Hk. cbn.
  eexists. split; [reflexivity|]. cbn [columns rows].
  split; [reflexivity|]. split.
  - rewrite range_index_cells, app_nil_r, !map_map. reflexivity.
  - rewrite range_index_labels, app_nil_r, length_app, !length_map.
    f_equal. simpl. now rewrite Nat.add_0_r.
Qed.

(** ** Aggregation: the figures of the two blocks *)

Lemma fadd_integral x y a b :
  integral x a -> integral y b -> integral (fadd x y) (a + b).
Proof.
  intros (p & -> & Hp & Dp) (q & -> & Hq & Dq).
  exists (p + q)%Q. split; [reflexivity|].
  unfold Qplus. cbn [Qnum Qden]. rewrite Dp, Dq, !Z.mul_1_r, Hp, Hq.
  split; reflexivity.
Qed.

Lemma count_integral z : integral (nan_to_zero (count_value z)) (default 0%Z z).
Proof. destruct z as [n|]; eexists; repeat split. Qed.

Lemma fold_fadd_integral (zs : list (option Z)) x a :
  integral x a ->
  integral
    (fold_left fadd (map (fun z => nan_to_zero (count_value z)) zs) x)
    (fold_left Z.add (map (default 0%Z) zs) a).
Proof.
  revert x a. induction zs as [|z zs IH]; intros x a Hx; simpl; [assumption|].
  apply IH. apply fadd_integral; [assumption|apply count_integral].
Qed.

Lemma fsum_counts (zs : list (option Z)) :
  integral (fsum (map nan_to_zero (map count_value zs))) (count_total zs).
Proof.
  rewrite map_map. destruct zs as [|z zs].
  - exists 0%Q. repeat split.
  - unfold count_total. cbn [map fsum fold_left].
    apply fold_fadd_integral. apply count_integral.
Qed.

Lemma markdown_totals_integral m f a b :
  integral m a -> integral f b ->
  markdown_totals (Num m) (Num f) = Ok (mkTotals a b (a + b)).
Proof.
  intros (p & -> & Hp & Dp) (q & -> & Hq & Dq).
  unfold markdown_totals. cbn. unfold Qplus. cbn [Qnum Qden].
  rewrite Dp, Dq, !Z.mul_1_r, Hp, Hq. cbn.
  now rewrite !Z.quot_1_r.
Qed.

Lemma pie_integral m f a b :
  integral m a -> integral f b ->
  pie [Num m; Num f] = if drawable a b then Ok tt else Raise ValueError.
Proof.
  intros (p & -> & Hp & Dp) (q & -> & Hq & Dq).
  unfold pie, drawable, wedge_ok, wedge_positive, Qle_bool. cbn.
  rewrite Dp, Dq, !Z.mul_1_r, Hp, Hq.
  rewrite !andb_true_r, !orb_false_r.
  destruct (Z.leb_spec 0 a), (Z.leb_spec 0 b), (Z.leb_spec a 0),
    (Z.leb_spec b 0), (Z.ltb_spec 0 (a + b)); cbn; try reflexivity; lia.
Qed.

Lemma statistics_integral m f a b :
  integral m a -> integral f b ->
  (t ← markdown_totals (Num m) (Num f); _ ← pie [Num m; Num f]; Ok t)
  = if drawable a b then Ok (mkTotals a b (a + b)) else Raise ValueError.
Proof.
  intros Hm Hf.
  rewrite (markdown_totals_integral m f a b Hm Hf). cbn [mbind result_bind].
  rewrite (pie_integral m f a b Hm Hf). now destruct (drawable a b).
Qed.

(** X20: on a selection that has rows and both columns, whose cells read
    as integers or as no number, with magnitudes that add up to less than
    2^53, the polygon block shows the sum of the Masculin counts, the sum
    of the Feminin counts and the sum of the two, a cell that reads as no
    number counting as zero; it then draws the pie chart, which raises
    ValueError when a sum is negative or both sums are zero. *)
Theorem polygon_statistics_totals (pts : frame point) (sm sf : list cell)
    (zm zf : list (option Z)) :
  rows pts <> [] ->
  get pts "Masculin" = Some sm ->
  get pts "Feminin" = Some sf ->
  map to_numeric_coerce sm = map count_value zm ->
  map to_numeric_coerce sf = map count_value zf ->
  (count_magnitude zm + count_magnitude zf < 2 ^ 53)%Z ->
  polygon_statistics pts
  = if drawable (count_total zm) (count_total zf)
    then Ok (PolygonTotals
               (mkTotals (count_total zm) (count_total zf)
                  (count_total zm + count_total zf)))
    else Raise ValueError.
Proof.
  intros Hrows Hm Hf Hzm Hzf _.
  unfold polygon_statistics, empty.
  destruct (rows pts) as [|r rs] eqn:E; [contradiction|].
  rewrite (coerced_sum_present _ _ _ Hm), (coerced_sum_present _ _ _ Hf).
  cbn [mbind result_bind].
  rewrite <- !(map_map to_numeric_coerce nan_to_zero), Hzm, Hzf.
  pose proof (statistics_integral _ _ _ _ (fsum_counts zm) (fsum_counts zf))
    as Hstat.
  destruct (markdown_totals _ _) as [t|e]; cbn [mbind result_bind] in *.
  - destruct (pie _) as [u|e]; cbn [mbind result_bind] in *;
      destruct (drawable _ _); congruence.
  - destruct (drawable _ _); congruence.
Qed.

(** X21: on joined points whose Masculin and Feminin columns are each
    either absent or made of integers and NaN, with magnitudes that add up
    to less than 2^53, the SE block shows the sum of each column and the
    sum of the two, NaN and an absent column counting as zero; it then
    draws the pie chart, which raises ValueError when a sum is negative or
    both sums are zero. *)
Theorem se_totals_numeric (pts_se : frame point) (zm zf : list (option Z)) :
  default [] (get pts_se "Masculin") = map Num (map count_value zm) ->
  default [] (get pts_se "Feminin") = map Num (map count_value zf) ->
  (count_magnitude zm + count_magnitude zf < 2 ^ 53)%Z ->
  se_totals pts_se
  = if drawable (count_total zm) (count_total zf)
    then Ok (mkTotals (count_total zm) (count_total zf)
               (count_total zm + count_total zf))
    else Raise ValueError.
Proof.
  intros Hm Hf _.
  unfold se_totals, plain_sum. rewrite Hm, Hf, !series_sum_numeric.
  cbn [mbind result_bind].
  apply (statistics_integral _ _ _ _ (fsum_counts zm) (fsum_counts zf)).
Qed.

(** X22: the polygon block shows nothing when nothing is drawn and when
    the last drawing has no geometry, whatever was drawn before; when the
    last drawing has a geometry, it shows its "No points" line exactly
    when no point of the table is within that geometry. *)
Theorem polygon_block_panels
    (points : frame point) (ds : list feature) (poly : geom) :
  polygon_block points [] = Ok NoPanel /\
  polygon_block points (ds ++ [mkFeature None]) = Ok NoPanel /\
  (polygon_block points (ds ++ [mkFeature (Some poly)]) = Ok NoPoints
   <-> forall p, In p (rows points) -> within (geometry p) poly = false).
Proof.
  assert (Hlast : forall f,
    polygon_block points (ds ++ [f])
    = match feature_geometry f with
      | None => Ok NoPanel
      | Some g => polygon_statistics (pts_poly points g)
      end).
  { intros f. unfold polygon_block. destruct ds as [|d ds']; [reflexivity|].
    cbn [app]. now rewrite last_feature_app. }
  split; [reflexivity|]. split; [now rewrite Hlast|].
  rewrite Hlast. cbn [feature_geometry].
  unfold polygon_statistics, empty, pts_poly. cbn [rows].
  split.
  - intros Hblock p Hp.
    destruct (List.filter (fun r => within (geometry r) poly) (rows points))
      as [|r rs] eqn:E.
    + destruct (within (geometry p) poly) eqn:Hw; [|reflexivity].
      assert (Hin : In p (List.filter (fun r => within (geometry r) poly)
                            (rows points))) by (apply filter_In; auto).
      rewrite E in Hin. destruct Hin.
    + exfalso. revert Hblock.
      destruct (coerced_sum _ "Masculin") as [m|e]; cbn; [|discriminate].
      destruct (coerced_sum _ "Feminin") as [f|e]; cbn; [|discriminate].
      destruct (markdown_totals m f); cbn; [|discriminate].
      destruct (pie [m; f]); cbn; discriminate.
  - intros Hnone. rewrite filter_none_in; [reflexivity|exact Hnone].
Qed.

(** ** The SE block when no point meets the selection *)

Lemma intersecting_pairs_none points polygons :
  (forall p q, In p (rows points) -> In q (rows polygons) ->
               locate (geometry p) (geometry q) = Exterior) ->
  intersecting_pairs points polygons = [].
Proof.
  intros H.
  destruct (intersecting_pairs points polygons) as [|[p q] l] eqn:E;
    [reflexivity|].
  assert (Hin : In (p, q) (intersecting_pairs points polygons))
    by (rewrite E; now left).
  apply intersecting_pairs_In in Hin. destruct Hin as (Hp & Hq & Hi).
  apply intersects_spec in Hi. exfalso. apply Hi. now apply H.
Qed.

(** X26: the SE block has no test for an empty join. When every point is
    outside every polygon of the selected subset (a well-formed table,
    the point table having no column the join refuses), the join returns
    a table without rows, the figures written are 0, 0 and 0, and the
    pie chart of the two zero sums then raises ValueError: with an SE
    selected the chart column ends in that error. *)
Theorem se_block_no_point_in_selection
    (points : frame point) (polygons : frame geom) (idse_selected : cell) :
  well_formed polygons ->
  existsb is_reserved (columns points) = false ->
  (forall p q, In p (rows points) -> In q (rows polygons) ->
               locate (geometry p) (geometry q) = Exterior) ->
  cell_eqb idse_selected no_filter = false ->
  (exists pts_se,
     safe_sjoin points polygons = Ok pts_se /\
     rows pts_se = [] /\
     se_figures pts_se = Ok zero_totals /\
     pie [Num fzero; Num fzero] = Raise ValueError) /\
  se_block points polygons = Raise ValueError /\
  chart_column points polygons idse_selected = Raise ValueError.
Proof.
  intros Hwf Hpts Hout Hsel.
  pose proof (safe_sjoin_value points polygons Hwf Hpts) as Hjoin.
  rewrite (intersecting_pairs_none points polygons Hout) in Hjoin.
  cbn [map] in Hjoin.
  assert (Hblock : se_block points polygons = Raise ValueError).
  { unfold se_block. rewrite Hjoin. cbn [mbind result_bind].
    now apply se_totals_no_rows. }
  split; [|split].
  - eexists. split; [exact Hjoin|]. split; [reflexivity|].
    split; [|reflexivity].
    unfold se_figures, plain_sum. rewrite !get_no_rows by reflexivity.
    reflexivity.
  - exact Hblock.
  - unfold chart_column. rewrite Hsel, Hblock. reflexivity.
Qed.

End Pipeline.

(** ** LOGIN *)

(** C9: on an unauthenticated session, pressing Login with user admin and
    password admin2025 marks the session authenticated, stores the user
    name admin and the role Admin and reruns the script; with any other
    password the error line is shown and the session state is the one
    before the attempt, which for a fresh session has auth_ok False and
    no user name and no role. *)
Theorem login_admin (st : gmap string value) :
  st !! "auth_ok" = Some (VBool false) ->
  (exists st',
     login st "admin" "admin2025" true = Ok (st', Rerun) /\
     st' !! "auth_ok" = Some (VBool true) /\
     st' !! "username" = Some (VStr "admin") /\
     st' !! "user_role" = Some (VStr "Admin")) /\
  (forall typed, typed <> "admin2025" ->
     login st "admin" typed true = Ok (st, Stopped true)) /\
  session_init ∅ !! "auth_ok" = Some (VBool false) /\
  session_init ∅ !! "username" = Some VNone /\
  session_init ∅ !! "user_role" = Some VNone.
Proof.
  intros Hauth.
  assert (Hadmin : USERS !! "admin" = Some (mkUser "admin2025" "Admin")).
  { unfold USERS. apply lookup_insert_eq. }
  split; [|split].
  - eexists. split.
    + unfold login. rewrite Hauth. cbn. rewrite Hadmin. cbn. reflexivity.
    + repeat split; now simplify_map_eq.
  - intros typed Hne. unfold login. rewrite Hauth. cbn. rewrite Hadmin. cbn.
    apply String.eqb_neq in Hne. now rewrite Hne.
  - unfold session_init. rewrite lookup_empty. repeat split; now simplify_map_eq.
Qed.

(** After LOGOUT no key is left, so the rerun starts from a fresh session. *)
Lemma logout_clears (st : gmap string value) : logout st = ∅.
Proof.
  apply map_eq. intros k. rewrite lookup_empty.
  unfold logout. rewrite <- fold_left_rev_right.
  destruct (st !! k) as [v|] eqn:E.
  - apply lookup_foldr_delete.
    apply list_elem_of_In. apply -> in_rev.
    apply in_map_iff. exists (k, v). split; [reflexivity|].
    apply list_elem_of_In. now apply elem_of_map_to_list.
  - rewrite lookup_foldr_delete_not_elem_of; [exact E|].
    intros Hin. apply list_elem_of_In in Hin. apply in_rev in Hin.
    apply in_map_iff in Hin.
    destruct Hin as ([k' v] & Hk & Hin). simpl in Hk. subst k'.
    apply list_elem_of_In, elem_of_map_to_list in Hin. congruence.
Qed.

Lemma session_init_after_logout (st : gmap string value) :
  session_init (logout st) = session_init ∅.
Proof. now rewrite logout_clears. Qed.

Lemma login_rerun_state (st st' : gmap string value) (username typed : string)
    (clicked : bool) :
  login st username typed clicked = Ok (st', Rerun) ->
  clicked = true /\
  exists u,
    USERS !! username = Some u /\
    typed = password u /\
    st' = <["user_role" := VStr (role u)]>
            (<["username" := VStr username]>
               (<["auth_ok" := VBool true]> st)).
Proof.
  unfold login. destruct (st !! "auth_ok") as [v|]; [|discriminate].
  destruct (truthy v) as [[|]|e]; cbn; try discriminate.
  destruct clicked; [|discriminate].
  destruct (USERS !! username) as [u|]; [|discriminate].
  destruct (String.eqb typed (password u)) eqn:E; [|discriminate].
  intros [= <-]. apply String.eqb_eq in E. split; [reflexivity|].
  now exists u.
Qed.

(** X23: the login section marks a session authenticated only on a click
    with the stored password of the selected user, and then stores that
    user's name and role; whenever it ends otherwise it leaves the session
    state as it found it. *)
Theorem login_outcomes (st st' : gmap string value) (username typed : string)
    (clicked : bool) (g : gate) :
  login st username typed clicked = Ok (st', g) ->
  (g = Rerun ->
   clicked = true /\
   exists u,
     USERS !! username = Some u /\
     typed = password u /\
     st' !! "auth_ok" = Some (VBool true) /\
     st' !! "username" = Some (VStr username) /\
     st' !! "user_role" = Some (VStr (role u))) /\
  (g <> Rerun -> st' = st).
Proof.
  intros Hlogin. split.
  - intros ->. apply login_rerun_state in Hlogin.
    destruct Hlogin as (Hc & u & Hu & Ht & ->).
    split; [assumption|]. exists u.
    repeat split; try assumption; now simplify_map_eq.
  - intros Hg. revert Hlogin. unfold login.
    destruct (st !! "auth_ok") as [v|]; [|discriminate].
    destruct (truthy v) as [[|]|e]; cbn; try discriminate.
    + now intros [= <- _].
    + destruct clicked; [|now intros [= <- _]].
      destruct (USERS !! username) as [u|]; [|discriminate].
      destruct (String.eqb typed (password u)); [|now intros [= <- _]].
      intros [= _ <-]. contradiction.
Qed.

(** X24: after a login that succeeded, the next run of the script keeps
    the session as it is and passes the login section, whatever the
    widgets hold. *)
Theorem login_then_passes (st st' : gmap string value)
    (username typed username' typed' : string) (clicked clicked' : bool) :
  login st username typed clicked = Ok (st', Rerun) ->
  session_init st' = st' /\
  login (session_init st') username' typed' clicked' = Ok (st', Passed).
Proof.
  intros Hlogin. apply login_rerun_state in Hlogin.
  destruct Hlogin as (_ & u & _ & _ & ->).
  assert (Hauth : forall m : gmap string value,
    <["user_role" := VStr (role u)]>
      (<["username" := VStr username]> (<["auth_ok" := VBool true]> m))
    !! "auth_ok" = Some (VBool true)).
  { intros m. now simplify_map_eq. }
  assert (Hinit : session_init
            (<["user_role" := VStr (role u)]>
               (<["username" := VStr username]>
                  (<["auth_ok" := VBool true]> st)))
          = <["user_role" := VStr (role u)]>
              (<["username" := VStr username]>
                 (<["auth_ok" := VBool true]> st))).
  { unfold session_init. now rewrite Hauth. }
  split; [exact Hinit|]. rewrite Hinit. unfold login. now rewrite Hauth.
Qed.

(** X25: whatever the session holds, after Logout and the rerun it is the
    fresh session: not authenticated, no user name, no role, no points
    table; and the login form is shown again. *)
Theorem logout_resets_session (st : gmap string value)
    (username typed : string) :
  session_init (logout st) = session_init ∅ /\
  session_init (logout st) !! "auth_ok" = Some (VBool false) /\
  session_init (logout st) !! "username" = Some VNone /\
  session_init (logout st) !! "user_role" = Some VNone /\
  session_init (logout st) !! "points_gdf" = Some VNone /\
  login (session_init (logout st)) username typed false
  = Ok (session_init ∅, Stopped false).
Proof.
  rewrite logout_clears. unfold session_init. rewrite lookup_empty.
  repeat split; now simplify_map_eq.
Qed.

(** ** The pipeline on the sample tables *)

(** The example of the specification: the points (M=5,F=3) and (M=0,F=2)
    add up to 5, 5 and 10.  They are the two sample points the zone Z1
    touches, the second one on its edge. *)
Example se_block_example :
  se_block box locate_box read_int Sample.points Sample.se_z1
  = Ok (mkTotals 5 5 10).
Proof. reflexivity. Qed.

(** Drawing the same square selects the inner point alone. *)
Example polygon_block_example :
  polygon_block read_plain box locate_box read_int Sample.points
    [mkFeature box (Some Sample.unit_square)]
  = Ok (PolygonTotals (mkTotals 5 3 8)).
Proof. reflexivity. Qed.

(** Two columns under one [index_] name: the first pass of the loop drops
    both, the second finds none to drop. *)
Example strip_index_columns_duplicate_name :
  strip_index_columns (mkFrame (G := box) ["index_a"; "index_a"] [])
  = Raise KeyError.
Proof. reflexivity. Qed.

(** Joining against a table that still has the index column of an earlier
    join fails in the library, and goes through in [safe_sjoin]. *)
Example sjoin_refuses_index_column :
  sjoin box locate_box Sample.points Sample.se = Raise ValueError /\
  succeeds (safe_sjoin box locate_box Sample.points Sample.se).
Proof. split; [reflexivity|]. eexists. reflexivity. Qed.

(** C1, on the sample: the point on the right edge of the unit square is
    joined to the zone Z1 and is not within the drawn unit square. *)
Lemma spatial_predicates_differ_witness :
  well_formed Sample.se_z1 /\
  existsb is_reserved (columns Sample.points) = false /\
  exists pts_se,
    safe_sjoin box locate_box Sample.points Sample.se_z1 = Ok pts_se /\
    In (join_row box
          (Sample.on_edge, stripped_row (columns Sample.se_z1) Sample.zone_1))
       (rows pts_se) /\
    ~ In Sample.on_edge
        (rows (pts_poly box locate_box Sample.points Sample.unit_square)).
Proof.
  assert (Hwf : well_formed Sample.se_z1).
  { split; [apply (bool_decide_unpack _); vm_compute; reflexivity
           |repeat constructor]. }
  assert (Hres : existsb is_reserved (columns Sample.points) = false)
    by reflexivity.
  split; [exact Hwf|]. split; [exact Hres|].
  destruct (spatial_predicates_differ box locate_box Sample.points
              Sample.se_z1 Sample.unit_square Hwf Hres)
    as (pts_se & Hjoin & _ & _ & Hedge & Hout).
  exists pts_se. split; [exact Hjoin|]. split.
  - apply Hedge; [simpl; auto|simpl; auto|reflexivity].
  - apply Hout. reflexivity.
Defined.

(** C2, the claim as stated fails: the CSV line with latitude inf is
    returned by [load_points], so being returned is not the same as both
    coordinates reading as finite numbers. *)
Lemma load_points_keeps_infinite_coordinate :
  exists out,
    load_points read_plain Sample.csv = Ok out /\
    ~ (forall r, In r (rows Sample.csv) ->
         (In (loaded_row read_plain 0 1 r) (rows out)
          <-> isfinite (to_numeric_coerce read_plain (cell_at 0 r)) = true
              /\ isfinite (to_numeric_coerce read_plain (cell_at 1 r)) = true)).
Proof.
  eexists. split; [reflexivity|].
  intros H.
  specialize (H (mkRow 0 [Num PInf; Sample.num 0] tt) (or_introl eq_refl)).
  destruct H as [H _]. destruct H as [H _]; [left; reflexivity|].
  discriminate H.
Qed.

(** C2, on the sample: of the three lines the first (inf) and the third
    are returned, the second (no latitude) is not. *)
Lemma load_points_survival_witness :
  In "LAT" (columns Sample.csv) /\ In "LON" (columns Sample.csv) /\
  exists out,
    load_points read_plain Sample.csv = Ok out /\
    map label (rows out) = [0; 2]%nat.
Proof.
  assert (Hlat : In "LAT" (columns Sample.csv)) by (simpl; auto).
  assert (Hlon : In "LON" (columns Sample.csv)) by (simpl; auto).
  split; [exact Hlat|]. split; [exact Hlon|].
  destruct (load_points_survival read_plain Sample.csv Hlat Hlon)
    as (out & lat & lon & Plat & Plon & Hload & _ & Hrows & _).
  exists out. split; [exact Hload|].
  injection Plat as <-. injection Plon as <-.
  rewrite Hrows. reflexivity.
Defined.

(** C3, the claim as stated fails: for the sample SE table the candidate
    list starts with "No filter", which is no idse_new value of the
    table, so the list is not the sorted list of the distinct values. *)
Lemma idse_list_is_not_the_sorted_values :
  exists vs l,
    getitem Sample.se "idse_new" = Ok vs /\
    idse_list Sample.se = Ok l /\
    ~ (exists L, l = map Text L /\
                 StronglySorted (fun s t => string_ltb s t = true) L /\
                 (forall s, In s L <-> In (Text s) vs)).
Proof.
  eexists _, _. split; [reflexivity|]. split; [reflexivity|].
  intros (L & HL & _ & Hin).
  destruct L as [|s L]; [discriminate|]. injection HL as <- _.
  destruct (Hin "No filter") as [H _].
  specialize (H (or_introl eq_refl)).
  simpl in H. intuition discriminate.
Qed.

(** C3, on the sample: the zones Z2 and Z1 give No filter, Z1, Z2. *)
Lemma idse_list_sorted_distinct_witness :
  getitem Sample.se "idse_new" = Ok [Text "Z2"; Text "Z1"] /\
  Forall (fun c => is_text c = true) [Text "Z2"; Text "Z1"] /\
  exists L,
    idse_list Sample.se = Ok (Text "No filter" :: map Text L) /\
    StronglySorted (fun s t => string_ltb s t = true) L /\
    (forall s, In s L <-> In (Text s) [Text "Z2"; Text "Z1"]).
Proof.
  assert (Hget : getitem Sample.se "idse_new" = Ok [Text "Z2"; Text "Z1"])
    by reflexivity.
  assert (Htxt : Forall (fun c => is_text c = true) [Text "Z2"; Text "Z1"])
    by (repeat constructor).
  split; [exact Hget|]. split; [exact Htxt|].
  exact (idse_list_sorted_distinct Sample.se _ Hget Htxt).
Defined.

(** C4, on the sample: selecting Z1 keeps the one row of that zone. *)
Lemma gdf_idse_selection_witness :
  position "idse_new" (columns Sample.se) = Some 3%nat /\
  "Z1" <> "No filter" /\
  gdf_idse Sample.se (Text "No filter") = Ok Sample.se /\
  exists sub,
    gdf_idse Sample.se (Text "Z1") = Ok sub /\ rows sub = [Sample.zone_1].
Proof.
  assert (Hpos : position "idse_new" (columns Sample.se) = Some 3%nat)
    by reflexivity.
  assert (Hid : "Z1" <> "No filter") by discriminate.
  split; [exact Hpos|]. split; [exact Hid|].
  destruct (gdf_idse_selection Sample.se "Z1" 3 Hpos Hid)
    as (Hall & sub & Hsub & _ & Hrows & _).
  split; [exact Hall|]. exists sub. split; [exact Hsub|].
  rewrite Hrows. reflexivity.
Defined.



(** C6, where the two blocks leave the stated behaviour.  A selected
    point table without the Masculin column makes the polygon block raise
    AttributeError instead of counting zero for it: [get] gives [None],
    [to_numeric] a scalar, and the scalar has no [fillna].  A joined point
    table whose Masculin cells are the texts 5 and ? makes the SE block
    raise ValueError instead of counting 5: the sum of the column is the
    text 5?, which [int] refuses. *)
Theorem aggregation_outside_the_claim :
  polygon_statistics read_plain read_int Sample.points_without_masculin
  = Raise AttributeError /\
  plain_sum Sample.points_with_text "Masculin" = Ok (Text "5?") /\
  se_totals read_int Sample.points_with_text = Raise ValueError /\
  se_block box locate_box read_int Sample.points_with_text Sample.se_z1
  = Raise ValueError /\
  coerced_sum read_plain Sample.points_with_text "Masculin"
  = Ok (Sample.num 5) /\
  plain_sum Sample.points_without_masculin "Masculin" = Ok (Sample.num 0).
Proof. repeat split; reflexivity. Qed.

(** C7, the claim as stated fails: a point table with a column named
    index_right makes the join raise ValueError, also against a polygon
    table without rows. *)
Lemma safe_sjoin_raises_on_reserved_point_column :
  rows Sample.se_empty = [] /\
  safe_sjoin box locate_box Sample.points_reserved Sample.se_empty
  = Raise ValueError /\
  ~ (exists out,
       safe_sjoin box locate_box Sample.points_reserved Sample.se_empty = Ok out
       /\ rows out = []).
Proof.
  split; [reflexivity|]. split; [reflexivity|].
  intros (out & H & _). discriminate H.
Qed.

(** C7, on the sample: the three points against the SE table without
    rows. *)
Lemma safe_sjoin_empty_polygons_witness :
  well_formed Sample.se_empty /\
  rows Sample.se_empty = [] /\
  existsb is_reserved (columns Sample.points) = false /\
  exists out,
    safe_sjoin box locate_box Sample.points Sample.se_empty = Ok out /\
    rows out = [].
Proof.
  assert (Hwf : well_formed Sample.se_empty).
  { split; [apply (bool_decide_unpack _); vm_compute; reflexivity
           |repeat constructor]. }
  split; [exact Hwf|]. split; [reflexivity|]. split; [reflexivity|].
  apply (safe_sjoin_empty_polygons box locate_box Sample.points
           Sample.se_empty Hwf); reflexivity.
Defined.

(** C8, the claim as stated fails: the table [safe_sjoin] returns has an
    index_right column, so joining it again, as the point table it is,
    raises ValueError; and the SE table loaded from a file with the
    properties index_a and INDEX_A has two index_a columns, which the
    clean-up loop does not remove: it raises KeyError. *)
Lemma safe_sjoin_rejoin_raises :
  exists joined,
    safe_sjoin box locate_box Sample.points Sample.se = Ok joined /\
    safe_sjoin box locate_box joined Sample.se = Raise ValueError /\
    safe_sjoin box locate_box Sample.points
      (load_se_data box lower_ascii strip_ascii (fun g => g)
         box_is_valid box_is_empty Sample.raw_index)
    = Raise KeyError.
Proof.
  eexists. split; [reflexivity|]. split; reflexivity.
Qed.

(** C8, on the sample: the SE table that has an index_right column loses
    it and keeps its six other columns, and the join goes through. *)
Lemma safe_sjoin_strips_index_columns_witness :
  well_formed Sample.se /\
  exists stripped,
    strip_index_columns Sample.se = Ok stripped /\
    columns stripped
    = ["region"; "cercle"; "commune"; "idse_new"; "pop_se"; "pop_se_ct"] /\
    succeeds (safe_sjoin box locate_box Sample.points Sample.se).
Proof.
  assert (Hwf : well_formed Sample.se).
  { split; [apply (bool_decide_unpack _); vm_compute; reflexivity
           |repeat constructor]. }
  split; [exact Hwf|].
  destruct (safe_sjoin_strips_index_columns box locate_box Sample.points
              Sample.se Hwf)
    as (stripped & Hstrip & _ & Hcols & _ & _ & _ & Hjoin).
  exists stripped. split; [exact Hstrip|]. split.
  - rewrite Hcols. reflexivity.
  - apply Hjoin. reflexivity.
Defined.

(** C9, on a fresh session. *)
Lemma login_admin_witness :
  session_init ∅ !! "auth_ok" = Some (VBool false) /\
  (exists st',
     login (session_init ∅) "admin" "admin2025" true = Ok (st', Rerun) /\
     st' !! "auth_ok" = Some (VBool true) /\
     st' !! "username" = Some (VStr "admin") /\
     st' !! "user_role" = Some (VStr "Admin")) /\
  login (session_init ∅) "admin" "admin2024" true
  = Ok (session_init ∅, Stopped true).
Proof.
  assert (H0 : session_init ∅ !! "auth_ok" = Some (VBool false))
    by (vm_compute; reflexivity).
  split; [exact H0|].
  destruct (login_admin (session_init ∅) H0) as (Hok & Hbad & _).
  split; [exact Hok|].
  apply Hbad. discriminate.
Defined.

(** C10, on the sample: with the far square drawn after the unit square
    the block counts the far point alone, (M=7,F=7), and the point inside
    the unit square is not selected. *)
Lemma polygon_block_last_drawing_witness :
  polygon_block read_plain box locate_box read_int Sample.points
    ([mkFeature box (Some Sample.unit_square)]
       ++ [mkFeature box (Some Sample.far_square)])
  = Ok (PolygonTotals (mkTotals 7 7 14)) /\
  ~ In Sample.inside
      (rows (pts_poly box locate_box Sample.points Sample.far_square)).
Proof.
  destruct (polygon_block_last_drawing read_plain box locate_box read_int
              Sample.points [mkFeature box (Some Sample.unit_square)]
              (mkFeature box (Some Sample.far_square)))
    as (_ & Hlast).
  destruct (Hlast Sample.far_square eq_refl) as (Hblock & Hout).
  split.
  - rewrite Hblock. reflexivity.
  - apply (Hout Sample.inside Sample.unit_square).
    + left. reflexivity.
    + reflexivity.
    + discriminate.
Defined.

(** ** The added properties on the sample tables *)

(** X1, on a CSV that has no LON column. *)
Lemma load_points_missing_column_witness :
  (~ In "LAT" (columns Sample.csv_no_lon)
   \/ ~ In "LON" (columns Sample.csv_no_lon)) /\
  load_points read_plain Sample.csv_no_lon = Raise KeyError.
Proof.
  assert (H : ~ In "LAT" (columns Sample.csv_no_lon)
              \/ ~ In "LON" (columns Sample.csv_no_lon)).
  { right. simpl. intros [H|[H|[]]]; discriminate H. }
  split; [exact H|].
  exact (load_points_missing_column read_plain Sample.csv_no_lon H).
Defined.

(** X2, on the CSV with a text column: no returned point has a NaN. *)
Lemma load_points_geometry_witness :
  In "LAT" (columns Sample.csv_text) /\
  In "LON" (columns Sample.csv_text) /\
  exists out,
    load_points read_plain Sample.csv_text = Ok out /\
    forall r, In r (rows out) ->
      isnan (px (geometry r)) = false /\ isnan (py (geometry r)) = false.
Proof.
  assert (Hlat : In "LAT" (columns Sample.csv_text)) by (simpl; auto).
  assert (Hlon : In "LON" (columns Sample.csv_text)) by (simpl; auto).
  split; [exact Hlat|]. split; [exact Hlon|].
  destruct (load_points_geometry read_plain Sample.csv_text Hlat Hlon)
    as (out & lat & lon & Hload & _ & _ & Hall).
  exists out. split; [exact Hload|].
  intros r Hr. destruct (Hall r Hr) as (_ & _ & Hx & Hy). now split.
Defined.

(** X3, on the same CSV: the Masculin texts of the two surviving lines
    come back as texts. *)
Lemma load_points_other_columns_witness :
  In "LAT" (columns Sample.csv_text) /\
  In "LON" (columns Sample.csv_text) /\
  position "Masculin" (columns Sample.csv_text) = Some 2%nat /\
  "Masculin" <> "LAT" /\ "Masculin" <> "LON" /\ "Masculin" <> "geometry" /\
  exists out,
    load_points read_plain Sample.csv_text = Ok out /\
    getitem out "Masculin" = Ok [Text "5"; Text "?"].
Proof.
  assert (Hlat : In "LAT" (columns Sample.csv_text)) by (simpl; auto).
  assert (Hlon : In "LON" (columns Sample.csv_text)) by (simpl; auto).
  assert (Hpos : position "Masculin" (columns Sample.csv_text) = Some 2%nat)
    by reflexivity.
  assert (Hn1 : "Masculin" <> "LAT") by discriminate.
  assert (Hn2 : "Masculin" <> "LON") by discriminate.
  assert (Hn3 : "Masculin" <> "geometry") by discriminate.
  repeat (split; [assumption|]).
  destruct (load_points_other_columns read_plain Sample.csv_text "Masculin" 2
              Hlat Hlon Hpos Hn1 Hn2 Hn3)
    as (out & lat & lon & Hload & Plat & Plon & Hget).
  exists out. split; [exact Hload|].
  injection Plat as <-. injection Plon as <-. rewrite Hget. reflexivity.
Defined.

(** X4, on the table of the two neighbouring zones. *)
Lemma strip_index_columns_nothing_to_strip_witness :
  well_formed Sample.se_neighbours /\
  (forall c, In c (columns Sample.se_neighbours) ->
             startswith "index_" c = false) /\
  strip_index_columns Sample.se_neighbours = Ok Sample.se_neighbours /\
  safe_sjoin box locate_box Sample.points Sample.se_neighbours
  = sjoin box locate_box Sample.points Sample.se_neighbours.
Proof.
  assert (Hwf : well_formed Sample.se_neighbours).
  { split; [apply (bool_decide_unpack _); vm_compute; reflexivity
           |repeat constructor]. }
  assert (Hno : forall c, In c (columns Sample.se_neighbours) ->
                          startswith "index_" c = false).
  { intros c [<-|[]]. reflexivity. }
  split; [exact Hwf|]. split; [exact Hno|].
  exact (strip_index_columns_nothing_to_strip box locate_box Sample.points
           Sample.se_neighbours Hwf Hno).
Defined.

(** X5, on the sample SE table: the points with an index_right column are
    refused, the plain points are joined. *)
Lemma safe_sjoin_succeeds_iff_witness :
  well_formed Sample.se /\
  succeeds (safe_sjoin box locate_box Sample.points Sample.se) /\
  safe_sjoin box locate_box Sample.points_reserved Sample.se
  = Raise ValueError.
Proof.
  assert (Hwf : well_formed Sample.se).
  { split; [apply (bool_decide_unpack _); vm_compute; reflexivity
           |repeat constructor]. }
  split; [exact Hwf|]. split.
  - destruct (safe_sjoin_succeeds_iff box locate_box Sample.points
                Sample.se Hwf) as [[_ Hok] _].
    apply Hok. reflexivity.
  - destruct (safe_sjoin_succeeds_iff box locate_box Sample.points_reserved
                Sample.se Hwf) as [_ Hbad].
    apply Hbad. reflexivity.
Defined.

(** X6, on the two neighbouring zones: the point on their common edge is
    joined twice, the inner point once, the far point not at all. *)
Lemma safe_sjoin_one_row_per_pair_witness :
  well_formed Sample.se_neighbours /\
  existsb is_reserved (columns Sample.points) = false /\
  exists out,
    safe_sjoin box locate_box Sample.points Sample.se_neighbours = Ok out /\
    map label (rows out) = [0; 1; 1]%nat.
Proof.
  assert (Hwf : well_formed Sample.se_neighbours).
  { split; [apply (bool_decide_unpack _); vm_compute; reflexivity
           |repeat constructor]. }
  split; [exact Hwf|]. split; [reflexivity|].
  destruct (safe_sjoin_one_row_per_pair box locate_box Sample.points
              Sample.se_neighbours Hwf eq_refl) as (out & Hjoin & Heq).
  exists out. split; [exact Hjoin|].
  transitivity (map fst (map (fun j => (label j, geometry j)) (rows out))).
  - rewrite map_map. reflexivity.
  - rewrite Heq. reflexivity.
Defined.

(** X7, on the same join: the Masculin column of the joined table. *)
Lemma safe_sjoin_point_column_witness :
  well_formed Sample.se_neighbours /\
  Forall (fun r => length (cells r) = length (columns Sample.points))
    (rows Sample.points) /\
  existsb is_reserved (columns Sample.points) = false /\
  (forall c, In c (columns Sample.points) ->
             ~ In c (columns Sample.se_neighbours)) /\
  position "Masculin" (columns Sample.points) = Some 2%nat /\
  exists out,
    safe_sjoin box locate_box Sample.points Sample.se_neighbours = Ok out /\
    getitem out "Masculin" = Ok [Sample.num 5; Sample.num 0; Sample.num 0].
Proof.
  assert (Hwf : well_formed Sample.se_neighbours).
  { split; [apply (bool_decide_unpack _); vm_compute; reflexivity
           |repeat constructor]. }
  assert (Hfit : Forall
            (fun r => length (cells r) = length (columns Sample.points))
            (rows Sample.points)) by (repeat constructor).
  assert (Hdisj : forall c, In c (columns Sample.points) ->
                            ~ In c (columns Sample.se_neighbours)).
  { intros c Hc [<-|[]]. simpl in Hc.
    destruct Hc as [H|[H|[H|[H|[]]]]]; discriminate H. }
  split; [exact Hwf|]. split; [exact Hfit|]. split; [reflexivity|].
  split; [exact Hdisj|]. split; [reflexivity|].
  destruct (safe_sjoin_point_column box locate_box Sample.points
              Sample.se_neighbours "Masculin" 2 Hwf Hfit eq_refl Hdisj eq_refl)
    as (out & Hjoin & Hget).
  exists out. split; [exact Hjoin|]. rewrite Hget. reflexivity.
Defined.

(** X8, on the zone Z1: the inner point, within the unit square, is
    joined to the zone. *)
Lemma within_selection_is_joined_witness :
  well_formed Sample.se_z1 /\
  existsb is_reserved (columns Sample.points) = false /\
  In Sample.zone_1 (rows Sample.se_z1) /\
  In Sample.inside
    (rows (pts_poly box locate_box Sample.points (geometry Sample.zone_1))) /\
  exists out,
    safe_sjoin box locate_box Sample.points Sample.se_z1 = Ok out /\
    In (join_row box
          (Sample.inside, stripped_row (columns Sample.se_z1) Sample.zone_1))
       (rows out).
Proof.
  assert (Hwf : well_formed Sample.se_z1).
  { split; [apply (bool_decide_unpack _); vm_compute; reflexivity
           |repeat constructor]. }
  assert (Hq : In Sample.zone_1 (rows Sample.se_z1)) by (simpl; auto).
  assert (Hp : In Sample.inside
                 (rows (pts_poly box locate_box Sample.points
                          (geometry Sample.zone_1))))
    by (left; reflexivity).
  split; [exact Hwf|]. split; [reflexivity|]. split; [exact Hq|].
  split; [exact Hp|].
  exact (within_selection_is_joined box locate_box Sample.points Sample.se_z1
           Sample.inside Sample.zone_1 Hwf eq_refl Hq Hp).
Defined.

(** X11, on the table whose region column has a missing value. *)
Lemma options_mixed_column_witness :
  getitem Sample.se_null_region "region" = Ok [Text "Kayes"; Num NaN] /\
  In (Text "Kayes") [Text "Kayes"; Num NaN] /\
  In (Num NaN) [Text "Kayes"; Num NaN] /\
  options "region" Sample.se_null_region = Raise TypeError.
Proof.
  assert (Hget : getitem Sample.se_null_region "region"
                 = Ok [Text "Kayes"; Num NaN]) by reflexivity.
  assert (Hs : In (Text "Kayes") [Text "Kayes"; Num NaN]) by (simpl; auto).
  assert (Hx : In (Num NaN) [Text "Kayes"; Num NaN]) by (simpl; auto).
  split; [exact Hget|]. split; [exact Hs|]. split; [exact Hx|].
  exact (options_mixed_column Sample.se_null_region "region" "Kayes" NaN
           _ Hget Hs Hx).
Defined.

(** X12, on the cercle column of the sample SE table. *)
Lemma options_sorted_distinct_witness :
  getitem Sample.se "cercle" = Ok [Text "Kita"; Text "Kita"] /\
  Forall (fun c => is_text c = true) [Text "Kita"; Text "Kita"] /\
  exists L,
    options "cercle" Sample.se = Ok (map Text L) /\
    StronglySorted (fun s t => string_ltb s t = true) L /\
    (forall s, In s L <-> In (Text s) [Text "Kita"; Text "Kita"]).
Proof.
  assert (Hget : getitem Sample.se "cercle" = Ok [Text "Kita"; Text "Kita"])
    by reflexivity.
  assert (Htxt : Forall (fun c => is_text c = true) [Text "Kita"; Text "Kita"])
    by (repeat constructor).
  split; [exact Hget|]. split; [exact Htxt|].
  exact (options_sorted_distinct Sample.se "cercle" _ Hget Htxt).
Defined.

(** X13, on the zone ids of the sample SE table. *)
Lemma select_eq_offered_value_witness :
  getitem Sample.se "idse_new" = Ok [Text "Z2"; Text "Z1"] /\
  In (Text "Z2") [Text "Z2"; Text "Z1"] /\
  (exists sub,
     select_eq "idse_new" (Text "Z2") Sample.se = Ok sub /\ rows sub <> []) /\
  (exists none,
     select_eq "idse_new" (Num NaN) Sample.se = Ok none /\ rows none = []).
Proof.
  assert (Hget : getitem Sample.se "idse_new" = Ok [Text "Z2"; Text "Z1"])
    by reflexivity.
  assert (Hin : In (Text "Z2") [Text "Z2"; Text "Z1"]) by (simpl; auto).
  split; [exact Hget|]. split; [exact Hin|].
  destruct (select_eq_offered_value Sample.se "idse_new" "Z2" _ Hget Hin)
    as [(sub & Hsub & Hne & _) Hnone].
  split; [|exact Hnone]. exists sub. now split.
Defined.

(** X14, on the sample SE table: the commune Kita of the cercle Kita of
    the region Kayes has the two zones. *)
Lemma gdf_commune_filters_witness :
  position "region" (columns Sample.se) = Some 0%nat /\
  position "cercle" (columns Sample.se) = Some 1%nat /\
  position "commune" (columns Sample.se) = Some 2%nat /\
  gdf_commune Sample.se (Text "Kayes") (Text "Kita") (Text "Kita")
  = Ok Sample.se.
Proof.
  split; [reflexivity|]. split; [reflexivity|]. split; [reflexivity|].
  rewrite (gdf_commune_filters Sample.se (Text "Kayes") (Text "Kita")
             (Text "Kita") 0 1 2 eq_refl eq_refl eq_refl).
  reflexivity.
Defined.

(** X15, on the sample SE table: the entry Z2 of its SE box. *)
Lemma gdf_idse_offered_entry_witness :
  getitem Sample.se "idse_new" = Ok [Text "Z2"; Text "Z1"] /\
  Forall (fun c => is_text c = true) [Text "Z2"; Text "Z1"] /\
  rows Sample.se <> [] /\
  idse_list Sample.se = Ok [Text "No filter"; Text "Z1"; Text "Z2"] /\
  In (Text "Z2") [Text "No filter"; Text "Z1"; Text "Z2"] /\
  exists chosen, gdf_idse Sample.se (Text "Z2") = Ok chosen /\ rows chosen <> [].
Proof.
  assert (Hget : getitem Sample.se "idse_new" = Ok [Text "Z2"; Text "Z1"])
    by reflexivity.
  assert (Htxt : Forall (fun c => is_text c = true) [Text "Z2"; Text "Z1"])
    by (repeat constructor).
  assert (Hrows : rows Sample.se <> []) by discriminate.
  assert (Hlist : idse_list Sample.se
                  = Ok [Text "No filter"; Text "Z1"; Text "Z2"])
    by reflexivity.
  assert (Hin : In (Text "Z2") [Text "No filter"; Text "Z1"; Text "Z2"])
    by (simpl; auto).
  repeat (split; [assumption|]).
  exact (gdf_idse_offered_entry Sample.se _ _ (Text "Z2")
           Hget Htxt Hrows Hlist Hin).
Defined.

(** X16, on the raw sample file. *)
Lemma load_se_data_columns_witness :
  NoDup (map renamed
           (map (fun c => strip_ascii (lower_ascii c))
              (columns Sample.raw_se))) /\
  columns (load_se_data box lower_ascii strip_ascii (fun g => g)
             box_is_valid box_is_empty Sample.raw_se)
  = ["region"; "cercle"; "commune"; "pop_se"; "idse_new"; "pop_se_ct"] /\
  exists sub chosen long,
    gdf_commune
      (load_se_data box lower_ascii strip_ascii (fun g => g)
         box_is_valid box_is_empty Sample.raw_se)
      (Text "Kayes") (Text "Kita") (Text "Kita") = Ok sub /\
    gdf_idse sub (Text "") = Ok chosen /\
    df_long chosen = Ok long.
Proof.
  assert (Hnd : NoDup (map renamed
           (map (fun c => strip_ascii (lower_ascii c))
              (columns Sample.raw_se)))).
  { apply (bool_decide_unpack _). vm_compute. reflexivity. }
  split; [exact Hnd|]. split; [reflexivity|].
  destruct (load_se_data_columns box lower_ascii strip_ascii (fun g => g)
              box_is_valid box_is_empty Sample.raw_se
              (Text "Kayes") (Text "Kita") (Text "Kita") (Text "") Hnd)
    as (_ & _ & H).
  exact H.
Defined.

(** X18, on the raw sample file: it has no idse_new and no pop_se_ct, so
    the returned rows hold the empty text and 0 there. *)
Lemma load_se_data_defaults_witness :
  rows_fit Sample.raw_se /\
  ~ In "idse_new"
      (map renamed
         (map (fun c => strip_ascii (lower_ascii c)) (columns Sample.raw_se))) /\
  ~ In "pop_se_ct"
      (map renamed
         (map (fun c => strip_ascii (lower_ascii c)) (columns Sample.raw_se))) /\
  column_holds "idse_new" (Text "")
    (load_se_data box lower_ascii strip_ascii (fun g => g)
       box_is_valid box_is_empty Sample.raw_se) /\
  column_holds "pop_se_ct" (Num fzero)
    (load_se_data box lower_ascii strip_ascii (fun g => g)
       box_is_valid box_is_empty Sample.raw_se).
Proof.
  assert (Hfit : rows_fit Sample.raw_se) by (repeat constructor).
  assert (H1 : ~ In "idse_new"
      (map renamed
         (map (fun c => strip_ascii (lower_ascii c)) (columns Sample.raw_se)))).
  { vm_compute. intros [H|[H|[H|[H|[]]]]]; discriminate H. }
  assert (H2 : ~ In "pop_se_ct"
      (map renamed
         (map (fun c => strip_ascii (lower_ascii c)) (columns Sample.raw_se)))).
  { vm_compute. intros [H|[H|[H|[H|[]]]]]; discriminate H. }
  split; [exact Hfit|]. split; [exact H1|]. split; [exact H2|]. split.
  - destruct (load_se_data_defaults box lower_ascii strip_ascii (fun g => g)
                box_is_valid box_is_empty Sample.raw_se "idse_new" Hfit H1)
      as (_ & Htext & _).
    apply Htext. simpl. auto.
  - destruct (load_se_data_defaults box lower_ascii strip_ascii (fun g => g)
                box_is_valid box_is_empty Sample.raw_se "pop_se_ct" Hfit H2)
      as (_ & _ & Hnum).
    apply Hnum. simpl. auto.
Defined.

(** X19, the example of the specification: the zone Z1 with pop_se 100
    and pop_se_ct 80 gives the rows (Z1, pop_se, 100) and
    (Z1, pop_se_ct, 80). *)
Lemma df_long_rows_witness :
  position "idse_new" (columns Sample.se_z1) = Some 3%nat /\
  position "pop_se" (columns Sample.se_z1) = Some 4%nat /\
  position "pop_se_ct" (columns Sample.se_z1) = Some 5%nat /\
  exists long,
    df_long Sample.se_z1 = Ok long /\
    map cells (rows long)
    = [ [Text "Z1"; Text "pop_se"; Sample.num 100];
        [Text "Z1"; Text "pop_se_ct"; Sample.num 80] ].
Proof.
  split; [reflexivity|]. split; [reflexivity|]. split; [reflexivity|].
  destruct (df_long_rows Sample.se_z1 3 4 5 eq_refl eq_refl eq_refl)
    as (long & Hlong & _ & Hcells & _).
  exists long. split; [exact Hlong|]. rewrite Hcells. reflexivity.
Defined.

(** X20, on the three sample points. *)
Lemma polygon_statistics_totals_witness :
  rows Sample.points <> [] /\
  get Sample.points "Masculin"
  = Some [Sample.num 5; Sample.num 0; Sample.num 7] /\
  get Sample.points "Feminin"
  = Some [Sample.num 3; Sample.num 2; Sample.num 7] /\
  map (to_numeric_coerce read_plain)
    [Sample.num 5; Sample.num 0; Sample.num 7]
  = map count_value [Some 5; Some 0; Some 7]%Z /\
  map (to_numeric_coerce read_plain)
    [Sample.num 3; Sample.num 2; Sample.num 7]
  = map count_value [Some 3; Some 2; Some 7]%Z /\
  (count_magnitude [Some 5; Some 0; Some 7]
   + count_magnitude [Some 3; Some 2; Some 7] < 2 ^ 53)%Z /\
  polygon_statistics read_plain read_int Sample.points
  = Ok (PolygonTotals (mkTotals 12 12 24)).
Proof.
  assert (Hrows : rows Sample.points <> []) by discriminate.
  assert (Hbound : (count_magnitude [Some 5; Some 0; Some 7]
                    + count_magnitude [Some 3; Some 2; Some 7] < 2 ^ 53)%Z)
    by (vm_compute; reflexivity).
  split; [exact Hrows|]. split; [reflexivity|]. split; [reflexivity|].
  split; [reflexivity|]. split; [reflexivity|]. split; [exact Hbound|].
  rewrite (polygon_statistics_totals read_plain read_int Sample.points
             _ _ [Some 5; Some 0; Some 7]%Z [Some 3; Some 2; Some 7]%Z
             Hrows eq_refl eq_refl eq_refl eq_refl Hbound).
  reflexivity.
Defined.

(** X21, on the three sample points taken as a joined table. *)
Lemma se_totals_numeric_witness :
  default [] (get Sample.points "Masculin")
  = map Num (map count_value [Some 5; Some 0; Some 7]%Z) /\
  default [] (get Sample.points "Feminin")
  = map Num (map count_value [Some 3; Some 2; Some 7]%Z) /\
  (count_magnitude [Some 5; Some 0; Some 7]
   + count_magnitude [Some 3; Some 2; Some 7] < 2 ^ 53)%Z /\
  se_totals read_int Sample.points = Ok (mkTotals 12 12 24).
Proof.
  assert (Hbound : (count_magnitude [Some 5; Some 0; Some 7]
                    + count_magnitude [Some 3; Some 2; Some 7] < 2 ^ 53)%Z)
    by (vm_compute; reflexivity).
  split; [reflexivity|]. split; [reflexivity|]. split; [exact Hbound|].
  rewrite (se_totals_numeric read_int Sample.points
             [Some 5; Some 0; Some 7]%Z [Some 3; Some 2; Some 7]%Z
             eq_refl eq_refl Hbound).
  reflexivity.
Defined.

(** X23 and X24, on a fresh session and the customer's password. *)
Lemma login_outcomes_witness :
  login (session_init ∅) "customer" "cust2025" true
  = Ok (<["user_role" := VStr "Customer"]>
          (<["username" := VStr "customer"]>
             (<["auth_ok" := VBool true]> (session_init ∅))),
        Rerun) /\
  (<["user_role" := VStr "Customer"]>
     (<["username" := VStr "customer"]>
        (<["auth_ok" := VBool true]> (session_init ∅))))
  !! "user_role" = Some (VStr "Customer").
Proof.
  assert (H : login (session_init ∅) "customer" "cust2025" true
    = Ok (<["user_role" := VStr "Customer"]>
            (<["username" := VStr "customer"]>
               (<["auth_ok" := VBool true]> (session_init ∅))),
          Rerun)) by (vm_compute; reflexivity).
  split; [exact H|].
  destruct (login_outcomes _ _ _ _ _ _ H) as [Hrerun _].
  destruct (Hrerun eq_refl) as (_ & u & Hu & _ & _ & _ & Hrole).
  rewrite Hrole. f_equal. f_equal.
  assert (Hc : USERS !! "customer" = Some (mkUser "cust2025" "Customer"))
    by (vm_compute; reflexivity).
  rewrite Hc in Hu. now injection Hu as <-.
Defined.

Lemma login_then_passes_witness :
  login (session_init ∅) "customer" "cust2025" true
  = Ok (<["user_role" := VStr "Customer"]>
          (<["username" := VStr "customer"]>
             (<["auth_ok" := VBool true]> (session_init ∅))),
        Rerun) /\
  login
    (session_init
       (<["user_role" := VStr "Customer"]>
          (<["username" := VStr "customer"]>
             (<["auth_ok" := VBool true]> (session_init ∅)))))
    "admin" "" false
  = Ok (<["user_role" := VStr "Customer"]>
          (<["username" := VStr "customer"]>
             (<["auth_ok" := VBool true]> (session_init ∅))),
        Passed).
Proof.
  assert (H : login (session_init ∅) "customer" "cust2025" true
    = Ok (<["user_role" := VStr "Customer"]>
            (<["username" := VStr "customer"]>
               (<["auth_ok" := VBool true]> (session_init ∅))),
          Rerun)) by (vm_compute; reflexivity).
  split; [exact H|].
  destruct (login_then_passes _ _ _ _ "admin" "" true false H) as [_ Hpass].
  exact Hpass.
Defined.

(** X26, on the sample: the far point is outside the zone Z1, so with Z1
    selected the SE block ends in ValueError at the pie chart. *)
Lemma se_block_no_point_in_selection_witness :
  well_formed Sample.se_z1 /\
  se_block box locate_box read_int Sample.far_only Sample.se_z1
  = Raise ValueError /\
  chart_column box locate_box read_int Sample.far_only Sample.se_z1
    (Text "Z1")
  = Raise ValueError.
Proof.
  assert (Hwf : well_formed Sample.se_z1).
  { split; [apply (bool_decide_unpack _); vm_compute; reflexivity
           |repeat constructor]. }
  split; [exact Hwf|].
  assert (Hout : forall p q, In p (rows Sample.far_only) ->
                   In q (rows Sample.se_z1) ->
                   locate_box (geometry p) (geometry q) = Exterior).
  { intros p q [<-|[]] [<-|[]]. reflexivity. }
  destruct (se_block_no_point_in_selection box locate_box read_int
              Sample.far_only Sample.se_z1 (Text "Z1")
              Hwf eq_refl Hout eq_refl)
    as (_ & Hblock & Hcolumn).
  split; [exact Hblock|exact Hcolumn].
Defined.
